(** * Media types and media ranges (media.py)

    A shallow embedding of the [Type] and [Range] classes of media.py and
    of the Python built-ins they call, with the properties of the
    containment relation, of [push]/[pop], of the parsers and of the
    negotiation procedure [Range.query]. *)

From Stdlib Require Import ZArith String Ascii List Sorted Permutation.
From Stdlib Require Import SpecFloat.
From stdpp Require Import base decidable option list sets gmap strings.

Local Open Scope Z_scope.

(** ** Python values and built-ins *)

Module Py.

(** Exceptions raised by the modelled built-ins.  [CodecError] stands for
    whatever the functions of the [tools] module raise. *)
Inductive exn :=
  | TypeError
  | ValueError
  | UnicodeEncodeError
  | OverflowError
  | RuntimeError
  | CodecError.

Inductive result (A : Type) :=
  | Ok (a : A)
  | Raise (e : exn).

Arguments Ok {A} a.
Arguments Raise {A} e.

#[global] Instance result_ret : MRet result := fun A a => Ok a.
#[global] Instance result_bind : MBind result := fun A B f m =>
  match m with
  | Ok a => f a
  | Raise e => Raise e
  end.

Definition returns {A} (m : result A) : Prop := exists a, m = Ok a.
Definition raises {A} (m : result A) : Prop := exists e, m = Raise e.

(** [bytes] objects are sequences of 8-bit characters; [str] objects are
    sequences of code points. *)
Definition bytes := list ascii.
Definition pystr := list N.

Definition B (s : string) : bytes := list_ascii_of_string s.
Definition U (s : string) : pystr := map N_of_ascii (list_ascii_of_string s).

(** [s.split(sep, 1)]: one element when [sep] does not occur, two otherwise. *)
Fixpoint split1 (sep : ascii) (s : bytes) : bytes * option bytes :=
  match s with
  | [] => ([], None)
  | c :: r =>
      if decide (c = sep) then ([], Some r)
      else let '(a, b) := split1 sep r in (c :: a, b)
  end.

Definition split_max1 (sep : ascii) (s : bytes) : list bytes :=
  match split1 sep s with
  | (a, None) => [a]
  | (a, Some b) => [a; b]
  end.

(** [s.split(sep)]: every occurrence of [sep] separates two parts. *)
Fixpoint split_all (sep : ascii) (s : bytes) : list bytes :=
  match s with
  | [] => [[]]
  | c :: r =>
      if decide (c = sep) then [] :: split_all sep r
      else match split_all sep r with
           | [] => [[c]]
           | p :: ps => (c :: p) :: ps
           end
  end.

(** ASCII whitespace, as stripped by [bytes.strip()]. *)
Definition is_space (c : ascii) : bool :=
  let n := N_of_ascii c in
  ((9 <=? n) && (n <=? 13) || (n =? 32))%N.

Fixpoint lstrip (s : bytes) : bytes :=
  match s with
  | [] => []
  | c :: r => if is_space c then lstrip r else s
  end.

Definition rstrip (s : bytes) : bytes := rev (lstrip (rev s)).
Definition strip (s : bytes) : bytes := rstrip (lstrip s).

(** [c in s] for a one-byte [c]. *)
Definition byte_in (c : ascii) (s : bytes) : bool :=
  existsb (fun d => bool_decide (d = c)) s.

(** [b.decode('ascii', 'surrogateescape')]: bytes above 127 become the
    lone surrogates U+DC80..U+DCFF. *)
Definition decode_ascii_surrogateescape (b : bytes) : pystr :=
  map (fun c => let n := N_of_ascii c in
                if (n <? 128)%N then n else (56320 + n)%N) b.

(** [s.encode('ascii', 'surrogateescape')]. *)
Fixpoint encode_ascii_surrogateescape (s : pystr) : result bytes :=
  match s with
  | [] => Ok []
  | c :: r =>
      if (c <? 128)%N then
        b ← encode_ascii_surrogateescape r; Ok (ascii_of_N c :: b)
      else if ((56448 <=? c) && (c <=? 56575))%N then
        b ← encode_ascii_surrogateescape r; Ok (ascii_of_N (c - 56320) :: b)
      else Raise UnicodeEncodeError
  end.

(** [s.encode('utf-8')]: surrogates are refused. *)
Definition utf8_char (c : N) : result bytes :=
  (if c <? 128 then Ok [ascii_of_N c]
   else if c <? 2048 then
     Ok [ascii_of_N (192 + c / 64); ascii_of_N (128 + c mod 64)]
   else if (55296 <=? c) && (c <=? 57343) then Raise UnicodeEncodeError
   else if c <? 65536 then
     Ok [ascii_of_N (224 + c / 4096); ascii_of_N (128 + (c / 64) mod 64);
         ascii_of_N (128 + c mod 64)]
   else
     Ok [ascii_of_N (240 + c / 262144); ascii_of_N (128 + (c / 4096) mod 64);
         ascii_of_N (128 + (c / 64) mod 64); ascii_of_N (128 + c mod 64)])%N.

Fixpoint encode_utf8 (s : pystr) : result bytes :=
  match s with
  | [] => Ok []
  | c :: r => h ← utf8_char c; t ← encode_utf8 r; Ok (h ++ t)
  end.

(** [s.rfind(c)] for a one-character [c]: the highest index, or -1. *)
Fixpoint rfind_from (c : N) (s : pystr) (i : Z) (found : Z) : Z :=
  match s with
  | [] => found
  | d :: r => rfind_from c r (i + 1) (if (d =? c)%N then i else found)
  end.

Definition rfind (c : N) (s : pystr) : Z := rfind_from c s 0 (-1).

(** [s[:index]] for a non-negative [index]. *)
Definition slice_to (index : Z) (s : pystr) : pystr := take (Z.to_nat index) s.

(** A [str] iterated: its one-character strings. *)
Definition iter_str (s : pystr) : list pystr := map (fun c => [c]) s.

(** [sep.join(...)] called with the positional arguments [args], each given
    by the strings it iterates over: [str.join] takes exactly one. *)
Fixpoint join_items (sep : pystr) (items : list pystr) : pystr :=
  match items with
  | [] => []
  | [x] => x
  | x :: r => x ++ sep ++ join_items sep r
  end.

Definition str_join (sep : pystr) (args : list (list pystr)) : result pystr :=
  match args with
  | [items] => Ok (join_items sep items)
  | _ => Raise TypeError
  end.

(** Tuples and lists are different sequence types: [+] joins two of the
    same type and raises [TypeError] otherwise. *)
Inductive pyseq (A : Type) :=
  | PyTuple (items : list A)
  | PyList (items : list A).

Arguments PyTuple {A} items.
Arguments PyList {A} items.

Definition seq_add {A} (a b : pyseq A) : result (pyseq A) :=
  match a, b with
  | PyTuple x, PyTuple y => Ok (PyTuple (x ++ y))
  | PyList x, PyList y => Ok (PyList (x ++ y))
  | _, _ => Raise TypeError
  end.

Definition seq_items {A} (a : pyseq A) : list A :=
  match a with PyTuple x | PyList x => x end.

End Py.

Import Py.

(** ** The [Type] class *)

(** A parameter is a (name, value) pair; the value may be absent. *)
Definition param : Type := pystr * option pystr.

(** The fields of the tuple a [Type] instance is. *)
Inductive field :=
  | FStr (s : pystr)
  | FParams (ps : gset param).

Record Type_ := mkType {
  cotype : pystr;
  subtype : pystr;
  parameters : gset param;
}.

#[global] Instance Type_eq_dec : EqDecision Type_.
Proof. solve_decision. Defined.

(** [Class(iterable)]: the instance whose items are those of [iterable];
    the instances considered are the triples of two strings and a set of
    parameters. *)
Definition Class (t : pyseq field) : result Type_ :=
  match seq_items t with
  | [FStr ct; FStr st; FParams os] => Ok (mkType ct st os)
  | _ => Raise TypeError
  end.

Definition star : pystr := U "*".
Definition plus : pystr := U "+".

(** [pattern]: ['*' in self[:2]]. *)
Definition pattern (self : Type_) : bool :=
  bool_decide (star = cotype self) || bool_decide (star = subtype self).

(** [x in (a, b)] for strings. *)
Definition str_in2 (x a b : pystr) : bool :=
  bool_decide (x = a) || bool_decide (x = b).

(** A [frozenset] is true when it is not empty. *)
Definition truthy (s : gset param) : bool := negb (bool_decide (s = ∅)).

(** [self.__contains__(mtype)], that is [mtype in self]. *)
Definition contains (self mtype : Type_) : bool :=
  if str_in2 (cotype self) star (cotype mtype) then
    if str_in2 (subtype self) star (subtype mtype) then
      if negb (truthy (parameters self))
         || (truthy (parameters mtype)
             && bool_decide (parameters mtype ⊆ parameters self))
      then true
      else false
    else false
  else false.

(** [cotype, ssubtype, *remainder = self]: the starred target is bound to a
    list. *)
Definition unpack_star (self : Type_) : pystr * pystr * pyseq field :=
  (cotype self, subtype self, PyList [FParams (parameters self)]).

(** [Type.push(self, subtype)] *)
Definition push (self : Type_) (subtype : pystr) : result Type_ :=
  let '(cotype, ssubtype, remainder) := unpack_star self in
  joined ← str_join plus [iter_str ssubtype; iter_str subtype];
  t ← seq_add (PyTuple [FStr cotype; FStr joined]) remainder;
  Class t.

(** [Type.pop(self)]; 43 is the code point of [+]. *)
Definition pop (self : Type_) : result Type_ :=
  let '(cotype, ssubtype, remainder) := unpack_star self in
  let index := rfind 43 ssubtype in
  if index =? -1 then Ok self
  else
    t ← seq_add (PyTuple [FStr cotype; FStr (slice_to index ssubtype)]) remainder;
    Class t.

(** ** Python floats

    [float] objects are IEEE 754 binary64 numbers; they are modelled by the
    standard library's [spec_float] with 53 bits of precision. *)

Module PyFloat.

Definition prec : Z := 53.
Definition emax : Z := 1024.

(** The nearest binary64 number to [m * 10^e] (ties to even), which is what
    [float()] returns for a decimal numeral with digits [m] and exponent [e]. *)
Definition of_decimal (neg : bool) (m : N) (e : Z) : spec_float :=
  match m with
  | N0 => S754_zero neg
  | Npos p =>
      if 0 <=? e then binary_round prec emax neg (p * Z.to_pos (10 ^ e))%positive 0
      else SFdiv prec emax (S754_finite neg p 0)
                           (S754_finite false (Z.to_pos (10 ^ (- e))) 0)
  end.

Definition is_digit (c : ascii) : bool :=
  let n := N_of_ascii c in ((48 <=? n) && (n <=? 57))%N.

Definition lower (c : ascii) : ascii :=
  let n := N_of_ascii c in
  if ((65 <=? n) && (n <=? 90))%N then ascii_of_N (n + 32) else c.

(** Underscores may only stand between two digits; they are dropped. *)
Fixpoint drop_underscores (prev : option ascii) (s : bytes) : option bytes :=
  match s with
  | [] => if bool_decide (prev = Some "_"%char) then None else Some []
  | c :: r =>
      if bool_decide (c = "_"%char) then
        if from_option is_digit false prev then drop_underscores (Some c) r
        else None
      else
        if bool_decide (prev = Some "_"%char) && negb (is_digit c) then None
        else r' ← drop_underscores (Some c) r; Some (c :: r')
  end.

(** The longest run of digits at the front of [s], accumulated on [acc]:
    the value, the number of digits read, and what follows. *)
Fixpoint digits (acc : N) (cnt : Z) (s : bytes) : N * Z * bytes :=
  match s with
  | c :: r =>
      if is_digit c then digits (10 * acc + (N_of_ascii c - 48))%N (cnt + 1) r
      else (acc, cnt, s)
  | [] => (acc, cnt, [])
  end.

Definition sign (s : bytes) : bool * bytes :=
  match s with
  | "-"%char :: r => (true, r)
  | "+"%char :: r => (false, r)
  | _ => (false, s)
  end.

(** An exponent part is read only when [e] is followed by at least one
    digit after the optional sign. *)
Definition exponent (s : bytes) : Z * bytes :=
  match s with
  | c :: r =>
      if bool_decide (lower c = "e"%char) then
        let '(neg, r1) := sign r in
        let '(n, cnt, r2) := digits 0 0 r1 in
        if cnt =? 0 then (0, s)
        else ((if neg then - Z.of_N n else Z.of_N n), r2)
      else (0, s)
  | [] => (0, [])
  end.

(** [digits [. digits] [exponent]] with at least one digit in the mantissa;
    the whole of [s] has to be consumed. *)
Definition number (neg : bool) (s : bytes) : option spec_float :=
  let '(n1, c1, r1) := digits 0 0 s in
  let '(n2, c2, r2) :=
    match r1 with
    | "."%char :: r => digits n1 0 r
    | _ => (n1, 0, r1)
    end in
  if c1 + c2 =? 0 then None
  else
    let '(e, r3) := exponent r2 in
    match r3 with
    | [] => Some (of_decimal neg n2 (e - c2))
    | _ => None
    end.

Definition inf_or_nan (neg : bool) (s : bytes) : option spec_float :=
  let l := map lower s in
  if bool_decide (l = B "inf") || bool_decide (l = B "infinity")
  then Some (S754_infinity neg)
  else if bool_decide (l = B "nan") then Some S754_nan
  else None.

(** [float(b)] for a [bytes] object [b]. *)
Definition float (b : bytes) : result spec_float :=
  match drop_underscores None b with
  | None => Raise ValueError
  | Some s =>
      let '(neg, r) := sign (strip s) in
      match number neg r with
      | Some f => Ok f
      | None =>
          match inf_or_nan neg r with
          | Some f => Ok f
          | None => Raise ValueError
          end
      end
  end.

(** [float(n)] for a positive [int] that fits: exact when below 2^53. *)
Definition of_int (n : positive) : spec_float := binary_round prec emax false n 0.

Definition mul (x y : spec_float) : spec_float := SFmul prec emax x y.

(** [int(f)]: the integral part, towards zero. *)
Definition int (f : spec_float) : result Z :=
  match f with
  | S754_nan => Raise ValueError
  | S754_infinity _ => Raise OverflowError
  | S754_zero _ => Ok 0
  | S754_finite s m e =>
      let v := Z.shiftl (Zpos m) e in Ok (if s then - v else v)
  end.

End PyFloat.

(** ** The [tools] module

    media.py imports the parameter-series functions from a sibling module;
    they are parameters of the development. *)

Definition token : Type := bytes * option bytes.

Class Tools := {
  (** [tools.split_parameter_series(series)] *)
  split_parameter_series : bytes -> result (list token);
  (** [tools.split_parameter_series(series, normal=tools._normal_mediarange_area)] *)
  split_mediarange_series : bytes -> result (list token);
  (** [list(tools.decode_parameters(pairs))] *)
  decode_parameters : list token -> result (list param);
  (** [tools.encode_parameters(pairs)] *)
  encode_parameters : list param -> result (list token);
  (** [tools.join_parameter_series(encoded)] *)
  join_parameter_series : list token -> result bytes;
}.

(** [a, b = l] *)
Definition unpack2 {A} (l : list A) : result (A * A) :=
  match l with
  | [a; b] => Ok (a, b)
  | _ => Raise ValueError
  end.

(** [(l or (b'',))[0]] *)
Definition first_or_empty (l : list bytes) : bytes :=
  match l with
  | [] => []
  | x :: _ => x
  end.

(** [b'/'.join(parts)] *)
Fixpoint join_bytes (sep : bytes) (parts : list bytes) : bytes :=
  match parts with
  | [] => []
  | [x] => x
  | x :: r => x ++ sep ++ join_bytes sep r
  end.

(** A [Range] is a sequence of (quality, type) pairs. *)
Abbreviation Range := (list (Z * Type_)).

Section Parsers.

Context {tools : Tools}.

(** The order in which a [frozenset] is iterated. *)
Variable iter_frozenset : gset param -> list param.

(** [Type.from_bytes(string, **parameters)] *)
Definition from_bytes (string : bytes) (parameters : list param) : result Type_ :=
  let start := split_max1 ";" string in
  '(ct, st) ← unpack2 (map strip (split_max1 "/" (hd [] start)));
  series ← split_parameter_series (first_or_empty (tl start));
  decoded ← decode_parameters series;
  let params := decoded ++ parameters in
  let os : gset param := list_to_set params in
  Ok (mkType (decode_ascii_surrogateescape ct) (decode_ascii_surrogateescape st) os).

(** [Type.from_string(string, **parameters)] *)
Definition from_string (string : pystr) (parameters : list param) : result Type_ :=
  b ← encode_ascii_surrogateescape string;
  from_bytes b parameters.

(** [Type.__bytes__(self)] with the default [format] *)
Definition to_bytes (self : Type_) : result bytes :=
  '(optjoin, optstr) ←
    (if truthy (parameters self) then
       encoded ← encode_parameters (iter_frozenset (parameters self));
       optstr ← join_parameter_series encoded;
       Ok (B ";", optstr)
     else Ok ([], []));
  ct ← encode_utf8 (cotype self);
  st ← encode_utf8 (subtype self);
  Ok (join_bytes (B "/") [ct; st] ++ optjoin ++ optstr).

(** [Type.__str__(self)] *)
Definition to_string (self : Type_) : result pystr :=
  b ← to_bytes self;
  Ok (decode_ascii_surrogateescape b).

(** *** The [Range] class *)

Definition group : Type := list bytes * option bytes * option (list token).

(** [params or None] *)
Definition or_None (params : list token) : option (list token) :=
  match params with
  | [] => None
  | _ => Some params
  end.

(** The [for] loop of [Range.split] and the final [yield]; [parts] is what
    is left of the iterator. *)
Fixpoint split_loop (parts : list token) (mtype : bytes)
    (quality : option bytes) (params : list token) : list group :=
  match parts with
  | [] => [(split_all "/" mtype, quality, or_None params)]
  | x :: parts' =>
      if bool_decide (x.2 = None) && byte_in "/" x.1 then
        (split_all "/" mtype, quality, or_None params)
          :: split_loop parts' x.1 None []
      else if bool_decide (x.1 = B "q") then split_loop parts' mtype x.2 params
      else split_loop parts' mtype quality (params ++ [x])
  end.

(** [Range.split] on the tokens of the media range; [next(parts)] on an
    exhausted iterator ends the generator with [RuntimeError]. *)
Definition split (parts : list token) : result (list group) :=
  match parts with
  | [] => Raise RuntimeError
  | x :: parts' => Ok (split_loop parts' x.1 None [])
  end.

(** [int(float(quality or b'1.0') * 100)] *)
Definition percent_of (quality : option bytes) : result Z :=
  let q := match quality with
           | None | Some [] => B "1.0"
           | Some q => q
           end in
  f ← PyFloat.float q;
  PyFloat.int (PyFloat.mul f (PyFloat.of_int 100)).

(** The loop of [Range.from_bytes]: the list [l] before it is sorted. *)
Fixpoint entries_of (groups : list group) : result (list (Z * Type_)) :=
  match groups with
  | [] => Ok []
  | (tpair, quality, parameters) :: groups' =>
      '(cotype, subtype) ← unpack2 (map decode_ascii_surrogateescape tpair);
      percent ← percent_of quality;
      parameters ← decode_parameters (default [] parameters);
      l ← entries_of groups';
      Ok ((percent, mkType cotype subtype (list_to_set parameters)) :: l)
  end.

(** [l.sort(key=operator.itemgetter(0), reverse=True)]: a stable sort into
    descending key order.  An entry is inserted in front of the ones that
    followed it, after those with a strictly greater key. *)
Fixpoint insert_desc (x : Z * Type_) (l : list (Z * Type_)) : list (Z * Type_) :=
  match l with
  | [] => [x]
  | y :: l' => if x.1 <? y.1 then y :: insert_desc x l' else x :: l
  end.

Definition sort_desc (l : list (Z * Type_)) : list (Z * Type_) :=
  foldr insert_desc [] l.

Definition parse_entries (parts : list token) : result (list (Z * Type_)) :=
  groups ← split parts;
  entries_of groups.

Definition Range_from_tokens (parts : list token) : result Range :=
  l ← parse_entries parts;
  Ok (sort_desc l).

(** [Range.from_bytes(data)] *)
Definition Range_from_bytes (data : bytes) : result Range :=
  parts ← split_mediarange_series data;
  Range_from_tokens parts.

(** [Range.from_string(string)] *)
Definition Range_from_string (string : pystr) : result Range :=
  b ← encode_ascii_surrogateescape string;
  Range_from_bytes b.

End Parsers.

(** *** [Range.query] *)

(** The local variables of [query]. *)
Record qstate := mkQ {
  current : option Type_;
  position : option Type_;
  quality : Z;
}.

(** [x in container] where [container] may be [None], which has no
    [__contains__]. *)
Definition py_in (x : Type_) (container : option Type_) : result bool :=
  match container with
  | None => Raise TypeError
  | Some c => Ok (contains c x)
  end.

(** The body of the inner loop for the entry [(q, mt)]; the boolean tells
    whether it ended in [break]. *)
Definition query_entry (x : Type_) (e : Z * Type_) (s : qstate)
    : result (qstate * bool) :=
  let '(q, mt) := e in
  if contains mt x || contains x mt then
    if quality s <? q then Ok (mkQ (Some x) (Some mt) q, false)
    else if q =? quality s then
      b ← py_in mt (position s);
      if b : bool then Ok (mkQ (Some x) (Some mt) (quality s), false)
      else Ok (s, false)
    else
      if bool_decide (current s <> None) && (q <? quality s) then Ok (s, true)
      else Ok (s, false)
  else Ok (s, false).

Fixpoint query_entries (x : Type_) (self : Range) (s : qstate) : result qstate :=
  match self with
  | [] => Ok s
  | e :: self' =>
      '(s', stop) ← query_entry x e s;
      if stop : bool then Ok s' else query_entries x self' s'
  end.

Fixpoint query_loop (self : Range) (available : list Type_) (s : qstate)
    : result qstate :=
  match available with
  | [] => Ok s
  | x :: available' =>
      s' ← query_entries x self s;
      query_loop self available' s'
  end.

(** [Range.query(self, *available)] *)
Definition query (self : Range) (available : list Type_)
    : result (option (Type_ * option Type_ * Z)) :=
  s ← query_loop self available (mkQ None None 0);
  match current s with
  | None => Ok None
  | Some c => Ok (Some (c, position s, quality s))
  end.

(** [Range.quality(self, mimetype)] *)
Definition Range_quality (self : Range) (mimetype : Type_) : result (option Z) :=
  r ← query self [mimetype];
  match r with
  | Some (_, _, q) => Ok (Some q)
  | None => Ok None
  end.

Definition any_type : Type_ := mkType star star ∅.
Definition any_range : Range := [(100, any_type)].

(** ** A parameter codec

    The functions of [tools] are not part of media.py.  General statements
    quantify over them; this instance serves where a concrete media range or
    media type string has to be read. *)

Module SpecTools.

Definition dquote : ascii := ascii_of_N 34.

(** Modelled from the spec: the series splitter [tools.split_parameter_series]
    is missing; the spec describes it as tokenizing a [;]/[,]-delimited,
    optionally quoted parameter series into ordered (token, value-or-absent)
    pairs.  [pieces] cuts the series at the delimiters outside quotes. *)
Fixpoint pieces (quoted : bool) (cur : bytes) (s : bytes) : list bytes :=
  match s with
  | [] => [rev cur]
  | c :: r =>
      if bool_decide (c = dquote) then pieces (negb quoted) (c :: cur) r
      else if negb quoted && (bool_decide (c = ";"%char) || bool_decide (c = ","%char))
      then rev cur :: pieces false [] r
      else pieces quoted (c :: cur) r
  end.

(** Modelled from the spec: one (token, value-or-absent) pair per piece that
    is not blank, the value being what follows the first [=]. *)
Definition token_of (piece : bytes) : option token :=
  match strip piece with
  | [] => None
  | p =>
      match split1 "="%char p with
      | (k, None) => Some (k, None)
      | (k, Some v) => Some (strip k, Some (strip v))
      end
  end.

Definition split_series (series : bytes) : result (list token) :=
  Ok (omap token_of (pieces false [] series)).

(** Modelled from the spec: [decodeParameters(pairs)] gives the ordered
    (name, decoded value) pairs. *)
Definition decode (pairs : list token) : result (list param) :=
  Ok (map (fun t : token =>
             (decode_ascii_surrogateescape t.1, decode_ascii_surrogateescape <$> t.2))
          pairs).

(** Modelled from the spec: [encodeParameters(pairs)] gives the ordered
    (name, encoded value) pairs. *)
Fixpoint encode (pairs : list param) : result (list token) :=
  match pairs with
  | [] => Ok []
  | (k, v) :: r =>
      k' ← encode_utf8 k;
      v' ← match v with
           | None => Ok None
           | Some v => b ← encode_utf8 v; Ok (Some b)
           end;
      r' ← encode r;
      Ok ((k', v') :: r')
  end.

(** Modelled from the spec: [joinParameterSeries(encodedPairs)] serializes
    the pairs joined with [;]. *)
Definition join (encoded : list token) : result bytes :=
  Ok (join_bytes (B ";")
        (map (fun t : token =>
                match t.2 with
                | None => t.1
                | Some v => t.1 ++ B "=" ++ v
                end) encoded)).

Definition tools : Tools := {|
  split_parameter_series := split_series;
  split_mediarange_series := split_series;
  decode_parameters := decode;
  encode_parameters := encode;
  join_parameter_series := join;
|}.

End SpecTools.

(** ** The statements of the specification *)

Module Spec.

(** Containment as the specification words it. *)
Definition contains_spec (self other : Type_) : Prop :=
  (cotype self = star \/ cotype self = cotype other)
  /\ (subtype self = star \/ subtype self = subtype other)
  /\ (parameters self = ∅
      \/ (parameters other <> ∅
          /\ forall p, p ∈ parameters other -> p ∈ parameters self)).

(** An entry matches a candidate when one is contained in the other. *)
Definition matches (candidate pat : Type_) : bool :=
  contains pat candidate || contains candidate pat.

(** The running best of the negotiation: candidate, pattern, quality. *)
Definition best : Type := option (Type_ * Type_ * Z).

(** A matching entry replaces the running best when its quality is strictly
    greater, or equal with its pattern contained in the best's pattern. *)
Definition consider (candidate : Type_) (b : best) (e : Z * Type_) : best :=
  if matches candidate e.2 then
    match b with
    | None => Some (candidate, e.2, e.1)
    | Some (c, p, q) =>
        if q <? e.1 then Some (candidate, e.2, e.1)
        else if (e.1 =? q) && contains p e.2 then Some (candidate, e.2, q)
        else b
    end
  else b.

(** Candidates in caller order and, per candidate, the entries in order. *)
Definition query_spec (self : Range) (available : list Type_) : best :=
  fold_left (fun b x => fold_left (consider x) self b) available None.

(** Adjacent entries are in descending quality order. *)
Definition quality_descending (r : Range) : Prop :=
  forall i a b, r !! i = Some a -> r !! S i = Some b -> b.1 <= a.1.

(** Entries of equal quality are in the order they have in [l]. *)
Definition ties_in_order (l r : list (Z * Type_)) : Prop :=
  forall q, filter (fun e => e.1 = q) r = filter (fun e => e.1 = q) l.

(** The result of [query] with the pattern known to be there. *)
Definition answer (b : best) : option (Type_ * option Type_ * Z) :=
  match b with
  | None => None
  | Some (c, p, q) => Some (c, Some p, q)
  end.

End Spec.

Import Spec.

(** ** Invariants used by the proofs *)

(** The state of [query] and the running best of the specification agree. *)
Definition agree (s : qstate) (b : best) : Prop :=
  match b with
  | None => s = mkQ None None 0
  | Some (c, p, q) => s = mkQ (Some c) (Some p) q /\ 0 < q
  end.

(** The order of the sorted list. *)
Definition ge_quality (e e' : Z * Type_) : Prop := e'.1 <= e.1.

(** *** Quality values

    The [qvalue] grammar of HTTP: 0 with up to three decimals, or 1 with up
    to three zero decimals. *)
Definition is_qvalue (q : bytes) : bool :=
  match q with
  | "0"%char :: r =>
      match r with
      | [] => true
      | "."%char :: ds => (length ds <=? 3)%nat && forallb PyFloat.is_digit ds
      | _ => false
      end
  | "1"%char :: r =>
      match r with
      | [] => true
      | "."%char :: ds =>
          (length ds <=? 3)%nat && forallb (fun c => bool_decide (c = "0"%char)) ds
      | _ => false
      end
  | _ => false
  end.

(** The value of a qvalue in thousandths, exactly. *)
Definition thousandths (q : bytes) : Z :=
  match q with
  | c :: r =>
      let '(n, cnt, _) := PyFloat.digits 0 0 (tl r) in
      (Z.of_N (N_of_ascii c) - 48) * 1000 + Z.of_N n * 10 ^ (3 - cnt)
  | [] => 0
  end.

Definition digit_chars : list ascii := map (fun k => ascii_of_N (48 + k)) [0; 1; 2; 3; 4; 5; 6; 7; 8; 9]%N.

(** The digit strings of length at most [n]. *)
Fixpoint digit_strings (n : nat) : list bytes :=
  match n with
  | O => [[]]
  | S n' => [] :: flat_map (fun c => map (cons c) (digit_strings n')) digit_chars
  end.

Definition all_qvalues : list bytes :=
  [B "0"; B "1"]
  ++ map (fun ds => "0"%char :: "."%char :: ds) (digit_strings 3)
  ++ map (fun ds => "1"%char :: "."%char :: ds) [B ""; B "0"; B "00"; B "000"].

(** The quality is within [0,100] and is the exact hundredfold of the
    qvalue, truncated, or one below it. *)
Definition quality_ok (q : bytes) (n : Z) : Prop :=
  0 <= n <= 100 /\ thousandths q / 10 - 1 <= n <= thousandths q / 10.

Definition quality_okb (q : bytes) : bool :=
  match percent_of (Some q) with
  | Ok n =>
      (0 <=? n) && (n <=? 100)
      && (thousandths q / 10 - 1 <=? n) && (n <=? thousandths q / 10)
  | Raise _ => false
  end.

(** *** Parsing a type *)

(** The input before the first [;] and the input after it. *)
Definition base_segment (string : bytes) : bytes := (split1 ";" string).1.
Definition series_segment (string : bytes) : bytes :=
  first_or_empty (tl (split_max1 ";" string)).

(** The characters [encode('ascii', 'surrogateescape')] accepts. *)
Definition ascii_encodable (c : N) : bool :=
  ((c <? 128) || ((56448 <=? c) && (c <=? 56575)))%N.

Definition is_ascii_byte (c : ascii) : Prop := (N_of_ascii c < 128)%N.

Section RoundTrip.

Context {tools : Tools}.
Variable iter_frozenset : gset param -> list param.

(** Reading the series [ser] gives the parameters [P]. *)
Definition reads_back (ser : bytes) (P : gset param) : Prop :=
  exists series decoded,
    split_parameter_series ser = Ok series
    /\ decode_parameters series = Ok decoded
    /\ list_to_set decoded = P.

(** The codec reads back what it writes for the parameters [P]; for no
    parameters nothing is written. *)
Definition codec_round_trips (P : gset param) : Prop :=
  if truthy P then
    exists encoded ser,
      encode_parameters (iter_frozenset P) = Ok encoded
      /\ join_parameter_series encoded = Ok ser
      /\ reads_back ser P
  else reads_back [] P.

End RoundTrip.


(** ** What is read from the parts of the input *)

(** The content type and subtype [from_bytes] takes from its input: what
    stands before and after the first [/] of the base segment, stripped. *)
Definition parsed_cotype (string : bytes) : bytes :=
  strip (split1 "/" (base_segment string)).1.
Definition parsed_subtype (string : bytes) : bytes :=
  strip (default [] (split1 "/" (base_segment string)).2).

(** The code points of ASCII whitespace. *)
Definition is_space_code (c : N) : Prop := (9 <= c <= 13 \/ c = 32)%N.

(** No whitespace at either end. *)
Definition trimmed (s : pystr) : Prop :=
  forall c, head s = Some c \/ last s = Some c -> ~ is_space_code c.

(** A token that starts a new type in [Range.split]. *)
Definition type_token (x : token) : bool :=
  bool_decide (x.2 = None) && byte_in "/" x.1.

(** The number of [/] in a token. *)
Definition slashes (s : bytes) : nat :=
  length (filter (fun c => c = "/"%char) s).

(** ** [file_type] and the table of types *)

Definition types_table : list (string * string) := [
  ("data", "application/octet-stream");
  ("fail", "application/failure+xml");
  ("python-pickle", "application/x-python-object+pickle");
  ("python-marshal", "application/x-python-object+marshal");
  ("python-xml", "application/x-python-object+xml");
  ("text", "text/plain");
  ("txt", "text/plain");
  ("rtf", "application/rtf");
  ("cache", "text/cache-manifest");
  ("html", "text/html");
  ("htm", "text/html");
  ("css", "text/css");
  ("pdf", "application/pdf");
  ("postscript", "application/postscript");
  ("javascript", "text/plain;pl=javascript");
  ("py", "text/plain;pl=python");
  ("json", "application/json");
  ("js", "application/javascript");
  ("xml", "text/xml");
  ("sgml", "text/sgml");
  ("rdf", "application/rdf+xml");
  ("rss", "application/rss+xml");
  ("atom", "application/atom+xml");
  ("xslt", "application/xslt+xml");
  ("xsl", "application/xslt+xml");
  ("zip", "application/zip");
  ("gzip", "application/gzip");
  ("gz", "application/gzip");
  ("bzip2", "application/x-bzip2");
  ("tar", "application/x-tar");
  ("xz", "application/x-xz");
  ("rar", "application/x-rar-compressed");
  ("sit", "application/x-stuffit");
  ("z", "application/x-compress");
  ("tgz", "application/x-tar+gzip");
  ("txz", "application/x-tar+x-xz");
  ("torrent", "application/x-bittorrent");
  ("svg", "image/svg+xml");
  ("png", "image/png");
  ("gif", "image/gif");
  ("tiff", "image/tiff");
  ("tif", "image/tiff");
  ("jpeg", "image/jpeg");
  ("jpg", "image/jpeg");
  ("mpg", "video/mpeg");
  ("mpeg", "video/mpeg");
  ("mp2", "video/mpeg");
  ("mov", "video/quicktime");
  ("mp4", "video/mp4");
  ("webm", "video/webm");
  ("ogv", "video/ogg");
  ("avi", "video/avi");
  ("mp3", "audio/mpeg");
  ("mid", "audio/midi");
  ("wav", "audio/x-wav");
  ("aif", "audio/x-aiff");
  ("aiff", "audio/x-aiff");
  ("ogg", "audio/ogg");
  ("opus", "audio/ogg");
  ("oga", "audio/ogg");
  ("ogx", "application/ogg");
  ("spx", "audio/ogg");
  ("xls", "application/vnd.ms-excel");
  ("doc", "application/msword");
  ("xlsx", "application/vnd.openxmlformats-officedocument.spreadsheetml.sheet");
  ("docx", "application/vnd.openxmlformats-officedocument.wordprocessingml.document");
  ("pptx", "application/vnd.openxmlformats-officedocument.presentationml.presentation");
  ("ppsx", "application/vnd.openxmlformats-officedocument.presentationml.slideshow");
  ("potx", "application/vnd.openxmlformats-officedocument.presentationml.template")
].

(** A dictionary display keeps the last value given for a key. *)
Definition types : gmap pystr pystr :=
  list_to_map (rev (map (fun kv : string * string => (U kv.1, U kv.2)) types_table)).

(** The errors of subscription. *)
Inductive lookup_error :=
  | IndexError
  | KeyError.

(** What a function that subscripts and parses gives. *)
Inductive outcome (A : Type) :=
  | Returned (a : A)
  | Failed (e : exn)
  | LookupFailed (e : lookup_error).

Arguments Returned {A} a.
Arguments Failed {A} e.
Arguments LookupFailed {A} e.

Definition lift {A} (m : result A) : outcome A :=
  match m with
  | Ok a => Returned a
  | Raise e => Failed e
  end.

(** [s.rsplit(c, 1)] for a one-character [c]: split at the last one. *)
Definition rsplit1 (c : N) (s : pystr) : list pystr :=
  let index := rfind c s in
  if index =? -1 then [s]
  else [slice_to index s; drop (Z.to_nat index + 1) s].

(** [types.get(key)]: the value of a key of the table, if any. *)
Definition types_get (key : pystr) : option pystr := types !! key.

Section FileType.

Context {tools : Tools}.

(** [file_type(filename)]; 46 is the code point of the dot.  The cache
    around it holds results of earlier calls and does not change them. *)
Definition file_type (filename : pystr) : outcome Type_ :=
  let parts := rsplit1 46 filename in
  match parts !! 1%nat with
  | None => LookupFailed IndexError
  | Some ext =>
      match types_get ext with
      | None =>
          match types_get (U "data") with
          | None => LookupFailed KeyError
          | Some v => lift (from_string v [])
          end
      | Some v => lift (from_string v [])
      end
  end.

End FileType.

(** ** Invariants of the negotiation *)

(** What [query] has chosen so far: nothing, at quality 0, or a candidate
    of [available] with an entry of [self] that matches it. *)
Definition chosen (self : Range) (available : list Type_) (s : qstate) : Prop :=
  match current s with
  | None => position s = None /\ quality s = 0
  | Some c =>
      c ∈ available
      /\ exists mt, position s = Some mt /\ (quality s, mt) ∈ self
                    /\ matches c mt = true /\ 0 < quality s
  end.

(** A running best of quality [n] at least. *)
Definition best_ge (b : best) (n : Z) : Prop :=
  exists c p q, b = Some (c, p, q) /\ n <= q.

(** A value of the table that [from_string] reads, but for the parameters,
    as a type that is not a pattern. *)
Definition table_value_ok (v : pystr) : bool :=
  match encode_ascii_surrogateescape v with
  | Ok b =>
      byte_in "/" (base_segment b)
      && negb (bool_decide (decode_ascii_surrogateescape (parsed_cotype b) = star))
      && negb (bool_decide (decode_ascii_surrogateescape (parsed_subtype b) = star))
  | Raise _ => false
  end.

(** The codec reads every series. *)
Definition codec_total (tools : Tools) : Prop :=
  forall ser : bytes, exists series decoded,
    split_parameter_series ser = Ok series /\ decode_parameters series = Ok decoded.

(** ** The groups of a token series *)

(** A series read as its types, each with the tokens that follow it up to
    the next type. *)
Definition series_of (groups : list (token * list token)) : list token :=
  flat_map (fun g : token * list token => g.1 :: g.2) groups.

(** The first token stands for a type whatever it is; every later group
    starts at a type token, and no group has one among its other tokens. *)
Definition well_grouped (groups : list (token * list token)) : bool :=
  match groups with
  | [] => false
  | _ :: rest =>
      forallb (fun g : token * list token => type_token g.1) rest
      && forallb (fun g : token * list token =>
                    forallb (fun t => negb (type_token t)) g.2) groups
  end.

(** The [q] of a group: the value of its last token named [q], if any. *)
Definition q_step (acc : option bytes) (t : token) : option bytes :=
  if bool_decide (t.1 = B "q") then t.2 else acc.

Definition last_q (tokens : list token) : option bytes :=
  fold_left q_step tokens None.

(** The hundredfold of a qvalue, truncated; the binary64 product falls
    below it for 0.29, 0.57 and 0.58. *)
Definition qvalue_percent (q : bytes) : Z :=
  let k := thousandths q in
  if (k =? 290) || (k =? 570) || (k =? 580) then k / 10 - 1 else k / 10.

Definition quality_exactb (q : bytes) : bool :=
  match percent_of (Some q) with
  | Ok n => n =? qvalue_percent q
  | Raise _ => false
  end.

(** A group of [Range.split] for a type token and the tokens after it. *)
Definition group_of (g : token * list token) (grp : group) : Prop :=
  grp.1.1 = split_all "/" g.1.1 /\ grp.1.2 = last_q g.2.

(** An entry for a type token and the tokens after it: the quality is read
    from the group's own [q], the type from the token. *)
Definition entry_of (g : token * list token) (e : Z * Type_) : Prop :=
  percent_of (last_q g.2) = Ok e.1
  /\ map decode_ascii_surrogateescape (split_all "/" g.1.1)
     = [cotype e.2; subtype e.2].
(** ** Containment *)

Section Containment.

Implicit Types self other mtype : Type_.

Lemma str_in2_true (x a b : pystr) : str_in2 x a b = true <-> x = a \/ x = b.
Proof.
  unfold str_in2. rewrite orb_true_iff, !bool_decide_eq_true. reflexivity.
Qed.

Lemma truthy_false (s : gset param) : truthy s = false <-> s = ∅.
Proof.
  unfold truthy. rewrite negb_false_iff, bool_decide_eq_true. reflexivity.
Qed.

Lemma truthy_true (s : gset param) : truthy s = true <-> s <> ∅.
Proof.
  unfold truthy. rewrite negb_true_iff, bool_decide_eq_false. reflexivity.
Qed.

(** The nested conditionals of [__contains__] are a conjunction. *)
Lemma contains_andb self mtype :
  contains self mtype =
    str_in2 (cotype self) star (cotype mtype)
    && str_in2 (subtype self) star (subtype mtype)
    && (negb (truthy (parameters self))
        || (truthy (parameters mtype)
            && bool_decide (parameters mtype ⊆ parameters self))).
Proof.
  unfold contains.
  destruct (str_in2 (cotype self) _ _), (str_in2 (subtype self) _ _); simpl;
    try reflexivity.
  destruct (negb _ || _); reflexivity.
Qed.

Lemma contains_true self other :
  contains self other = true <-> contains_spec self other.
Proof.
  rewrite contains_andb, !andb_true_iff, orb_true_iff, andb_true_iff.
  rewrite !str_in2_true, negb_true_iff, truthy_false, truthy_true.
  rewrite bool_decide_eq_true.
  unfold contains_spec. rewrite elem_of_subseteq. tauto.
Qed.

Lemma contains_trans a b c :
  contains a b = true -> contains b c = true -> contains a c = true.
Proof.
  rewrite !contains_true. unfold contains_spec.
  intros (Hc1 & Hs1 & Hp1) (Hc2 & Hs2 & Hp2). repeat split.
  - destruct Hc1 as [->|Hc1]; [by left|]. rewrite Hc1. exact Hc2.
  - destruct Hs1 as [->|Hs1]; [by left|]. rewrite Hs1. exact Hs2.
  - destruct Hp1 as [Hp1|[Hne1 Hsub1]]; [by left|]. right.
    destruct Hp2 as [Hp2|[Hne2 Hsub2]]; [contradiction|].
    split; [exact Hne2|]. intros p Hp. apply Hsub1, Hsub2, Hp.
Qed.

(** C1: [other in self] is true exactly when the content types agree or
    [self]'s is the wildcard, the subtypes agree or [self]'s is the wildcard,
    and [self] has no parameters or [other] has some and all of them are
    parameters of [self]. *)
Theorem contains_iff_spec self other :
  contains self other = true <->
    (cotype self = U "*" \/ cotype self = cotype other)
    /\ (subtype self = U "*" \/ subtype self = subtype other)
    /\ (parameters self = ∅
        \/ (parameters other <> ∅
            /\ forall p, p ∈ parameters other -> p ∈ parameters self)).
Proof. apply contains_true. Qed.

(** C9, as amended: containment is not symmetric, but it is transitive. *)
Theorem contains_not_symmetric_but_transitive :
  (exists a b, contains a b = true /\ contains b a = false)
  /\ (forall a b c,
        contains a b = true -> contains b c = true -> contains a c = true).
Proof.
  split.
  - exists any_type, (mkType (U "text") (U "html") ∅). by vm_compute.
  - apply contains_trans.
Qed.

(** The transitivity half of C9 at [*/*], [text/*] and [text/html]. *)
Lemma contains_not_symmetric_but_transitive_witness :
  contains any_type (mkType (U "text") (U "html") ∅) = true.
Proof.
  apply (proj2 contains_not_symmetric_but_transitive
           any_type (mkType (U "text") star ∅) (mkType (U "text") (U "html") ∅));
    vm_compute; reflexivity.
Defined.

(** C9 as stated does not hold: no three types break transitivity. *)
Lemma contains_no_transitivity_failure :
  ~ ((exists a b, contains a b = true /\ contains b a = false)
     /\ (exists a b c,
           contains a b = true /\ contains b c = true /\ contains a c = false)).
Proof.
  intros [_ (a & b & c & Hab & Hbc & Hac)].
  rewrite (contains_trans a b c Hab Hbc) in Hac. discriminate.
Qed.

End Containment.

(** ** [push] and [pop] *)

Section PushPop.

Lemma rfind_from_spec (c : N) (s : pystr) :
  forall i found,
    (c ∉ s -> rfind_from c s i found = found)
    /\ (c ∈ s -> i <= rfind_from c s i found).
Proof.
  induction s as [|d r IH]; intros i found; simpl.
  - split; [reflexivity|]. intros H. by apply elem_of_nil in H.
  - destruct (IH (i + 1) (if (d =? c)%N then i else found)) as [IHn IHy].
    split.
    + intros Hn. apply not_elem_of_cons in Hn as [Hne Hr].
      rewrite (IHn Hr). destruct (N.eqb_spec d c); congruence.
    + intros Hin. destruct (decide (c ∈ r)) as [Hr|Hr].
      * specialize (IHy Hr). lia.
      * rewrite (IHn Hr). apply elem_of_cons in Hin as [->|Hin]; [|contradiction].
        rewrite N.eqb_refl. lia.
Qed.

Lemma rfind_absent (c : N) (s : pystr) : c ∉ s -> rfind c s = -1.
Proof. intros H. unfold rfind. by apply rfind_from_spec. Qed.

Lemma rfind_present (c : N) (s : pystr) : c ∈ s -> 0 <= rfind c s.
Proof. intros H. unfold rfind. by apply rfind_from_spec. Qed.

(** C5: [push] does not return the type with [+] and the segment appended to
    the subtype: the call of [join] with two arguments raises [TypeError] for
    every type and every segment, also for application/rss and xml. *)
Theorem push_raises_TypeError :
  (forall (t : Type_) (s : pystr), push t s = Raise TypeError)
  /\ push (mkType (U "application") (U "rss") ∅) (U "xml")
       <> Ok (mkType (U "application") (U "rss+xml") ∅).
Proof.
  split; [intros t s; reflexivity | discriminate].
Qed.

(** C10: without a [+] in the subtype [pop] returns the receiver; with one
    it returns nothing, since adding the list [remainder] to a tuple raises
    [TypeError]; so whatever [pop] returns is the receiver itself. *)
Theorem pop_returns_self_or_raises (t : Type_) :
  (43%N ∉ subtype t -> pop t = Ok t)
  /\ (43%N ∈ subtype t -> pop t = Raise TypeError)
  /\ (forall r, pop t = Ok r -> r = t).
Proof.
  assert (Hno : 43%N ∉ subtype t -> pop t = Ok t).
  { intros H. unfold pop, unpack_star. by rewrite (rfind_absent _ _ H). }
  assert (Hyes : 43%N ∈ subtype t -> pop t = Raise TypeError).
  { intros H. unfold pop, unpack_star.
    pose proof (rfind_present _ _ H) as Hge.
    by destruct (Z.eqb_spec (rfind 43 (subtype t)) (-1)) as [E|_]; [lia|]. }
  split; [exact Hno|]. split; [exact Hyes|].
  intros r Hr. destruct (decide (43%N ∈ subtype t)) as [H|H].
  - rewrite (Hyes H) in Hr. discriminate.
  - rewrite (Hno H) in Hr. by injection Hr.
Qed.

(** [pop] on application/rss+xml. *)
Lemma pop_returns_self_or_raises_witness :
  pop (mkType (U "application") (U "rss+xml") ∅) = Raise TypeError.
Proof.
  apply (proj1 (proj2 (pop_returns_self_or_raises
                         (mkType (U "application") (U "rss+xml") ∅)))).
  vm_compute. do 3 right. left.
Defined.

End PushPop.

(** ** The order of a parsed range *)

Section RangeOrder.

Implicit Types (x e : Z * Type_) (l r : list (Z * Type_)).

Lemma insert_desc_perm x l : insert_desc x l ≡ₚ x :: l.
Proof.
  induction l as [|y l IH]; simpl; [reflexivity|].
  destruct (x.1 <? y.1); [|reflexivity].
  rewrite IH. apply Permutation_swap.
Qed.

Lemma sort_desc_perm l : sort_desc l ≡ₚ l.
Proof.
  induction l as [|x l IH]; simpl; [reflexivity|].
  rewrite insert_desc_perm. by rewrite IH.
Qed.

Lemma insert_desc_HdRel a x l :
  HdRel ge_quality a l -> x.1 <= a.1 -> HdRel ge_quality a (insert_desc x l).
Proof.
  intros H Hx. destruct l as [|y l]; simpl.
  - by constructor.
  - inversion_clear H. destruct (x.1 <? y.1); by constructor.
Qed.

Lemma insert_desc_sorted x l :
  Sorted ge_quality l -> Sorted ge_quality (insert_desc x l).
Proof.
  induction 1 as [|y l Hl IH Hhd]; simpl.
  - repeat constructor.
  - destruct (Z.ltb_spec x.1 y.1) as [Hlt|Hge].
    + constructor; [exact IH|]. apply insert_desc_HdRel; [exact Hhd|lia].
    + constructor; [by constructor|]. constructor. exact Hge.
Qed.

Lemma sort_desc_sorted l : Sorted ge_quality (sort_desc l).
Proof.
  induction l as [|x l IH]; simpl; [constructor|].
  by apply insert_desc_sorted.
Qed.

Lemma Sorted_quality_descending r :
  Sorted ge_quality r -> quality_descending r.
Proof.
  induction 1 as [|a r Hr IH Hhd]; intros i u v Hu Hv.
  - by rewrite lookup_nil in Hu.
  - destruct i as [|i]; simpl in *.
    + injection Hu as <-. destruct r as [|b r]; [discriminate|].
      simpl in Hv. injection Hv as <-. by inversion_clear Hhd.
    + exact (IH i u v Hu Hv).
Qed.

(** Insertion only passes entries of strictly greater quality, so entries
    of one quality keep their order. *)
Lemma insert_desc_filter (q : Z) x l :
  filter (fun e => e.1 = q) (insert_desc x l) = filter (fun e => e.1 = q) (x :: l).
Proof.
  induction l as [|y l IH]; simpl; [reflexivity|].
  destruct (Z.ltb_spec x.1 y.1) as [Hlt|Hge]; [|reflexivity].
  rewrite (filter_cons _ y), IH, !(filter_cons _ x), (filter_cons _ y).
  destruct (decide (y.1 = q)), (decide (x.1 = q)); try reflexivity. lia.
Qed.

Lemma sort_desc_ties l : ties_in_order l (sort_desc l).
Proof.
  intros q. induction l as [|x l IH]; simpl; [reflexivity|].
  rewrite insert_desc_filter, !(filter_cons _ x), IH. reflexivity.
Qed.

(** C3: a range produced by the range parser has its entries in descending
    quality order, adjacent qualities never increasing, and is the parse-order
    list with the entries of equal quality in their original order; the
    media range [text/html;q=0.9, text/plain;q=1.0, application/xml;q=0.9]
    is read as [(100, text/plain), (90, text/html), (90, application/xml)]. *)
Theorem range_parser_sorts_by_quality :
  (forall (tools : Tools) (data : bytes) (r : Range),
      Range_from_bytes data = Ok r ->
      quality_descending r
      /\ exists parts l,
           split_mediarange_series data = Ok parts
           /\ parse_entries parts = Ok l
           /\ r ≡ₚ l
           /\ ties_in_order l r)
  /\ Range_from_bytes (tools := SpecTools.tools)
       (B "text/html;q=0.9, text/plain;q=1.0, application/xml;q=0.9")
     = Ok [(100, mkType (U "text") (U "plain") ∅);
           (90, mkType (U "text") (U "html") ∅);
           (90, mkType (U "application") (U "xml") ∅)].
Proof.
  split; [|vm_compute; reflexivity].
  intros tools data r. unfold Range_from_bytes, Range_from_tokens.
  destruct (split_mediarange_series data) as [parts|] eqn:Hparts; simpl;
    [|discriminate].
  destruct (parse_entries parts) as [l|] eqn:Hl; simpl; [|discriminate].
  intros [= <-]. split.
  - apply Sorted_quality_descending, sort_desc_sorted.
  - exists parts, l. split; [reflexivity|]. split; [exact Hl|].
    split; [apply sort_desc_perm | apply sort_desc_ties].
Qed.

(** The three-entry media range of C3 is in descending quality order. *)
Lemma range_parser_sorts_by_quality_witness :
  quality_descending [(100, mkType (U "text") (U "plain") ∅);
                      (90, mkType (U "text") (U "html") ∅);
                      (90, mkType (U "application") (U "xml") ∅)].
Proof.
  refine (proj1 (proj1 range_parser_sorts_by_quality SpecTools.tools
            (B "text/html;q=0.9, text/plain;q=1.0, application/xml;q=0.9") _ _)).
  vm_compute. reflexivity.
Defined.

End RangeOrder.

(** ** Negotiation *)

Section Query.

Implicit Types (self : Range) (x : Type_) (e : Z * Type_) (s : qstate) (b : best).

Lemma quality_descending_cons e self :
  quality_descending (e :: self) ->
  quality_descending self /\ Forall (fun e' => e'.1 <= e.1) self.
Proof.
  revert e. induction self as [|a r IH]; intros e H.
  - split; [|constructor]. intros i ? ? Hi. by rewrite lookup_nil in Hi.
  - assert (Hr : quality_descending (a :: r)).
    { intros i u v Hu Hv. exact (H (S i) u v Hu Hv). }
    split; [exact Hr|].
    assert (Hae : a.1 <= e.1) by exact (H 0%nat e a eq_refl eq_refl).
    constructor; [exact Hae|].
    destruct (IH a Hr) as [_ Hall].
    eapply Forall_impl; [exact Hall|]. simpl. intros; lia.
Qed.

Lemma consider_lower x b e c p q :
  b = Some (c, p, q) -> e.1 < q -> consider x b e = b.
Proof.
  intros -> Hlt. unfold consider. destruct (matches x e.2); [|reflexivity].
  destruct (Z.ltb_spec q e.1); [lia|].
  destruct (Z.eqb_spec e.1 q); [lia|]. reflexivity.
Qed.

Lemma consider_all_lower x self b c p q :
  b = Some (c, p, q) -> Forall (fun e => e.1 < q) self ->
  fold_left (consider x) self b = b.
Proof.
  intros Hb. induction 1 as [|e r He Hr IH]; simpl; [reflexivity|].
  rewrite (consider_lower x b e c p q Hb He). exact IH.
Qed.

(** One entry: without a [break] the new state agrees with the new best;
    a [break] happens only below the quality of a best that stays. *)
Lemma query_entry_agree x e s b :
  agree s b -> 0 < e.1 ->
  exists s' stop,
    query_entry x e s = Ok (s', stop)
    /\ agree s' (consider x b e)
    /\ (stop = true ->
        exists c p q, b = Some (c, p, q) /\ e.1 < q /\ consider x b e = b).
Proof.
  intros Hag Hpos. destruct e as [q mt]. simpl in Hpos.
  unfold query_entry, consider, matches. simpl.
  destruct (contains mt x || contains x mt).
  2:{ exists s, false. repeat split; [exact Hag | discriminate]. }
  destruct b as [[[c p] bq]|]; simpl in Hag.
  - destruct Hag as [-> Hbq]. simpl.
    destruct (Z.ltb_spec bq q) as [Hlt|Hge].
    + eexists _, false. repeat split; [exact Hpos | discriminate].
    + destruct (Z.eqb_spec q bq) as [->|Hne]; simpl.
      * destruct (contains p mt).
        -- eexists _, false. repeat split; [exact Hbq | discriminate].
        -- eexists _, false. repeat split; [exact Hbq | discriminate].
      * destruct (Z.ltb_spec q bq) as [Hlt|Hge']; [|lia].
        try rewrite bool_decide_eq_true_2 by discriminate. simpl.
        eexists _, true. repeat split; [exact Hbq|].
        intros _. exists c, p, bq. repeat split. exact Hlt.
  - subst s. simpl.
    destruct (Z.ltb_spec 0 q) as [_|Hge]; [|lia].
    eexists _, false. repeat split; [exact Hpos | discriminate].
Qed.

Lemma query_entries_agree x self :
  quality_descending self -> Forall (fun e => 0 < e.1) self ->
  forall s b, agree s b ->
  exists s', query_entries x self s = Ok s'
             /\ agree s' (fold_left (consider x) self b).
Proof.
  induction self as [|e r IH]; intros Hsorted Hpos s b Hag; simpl.
  - exists s. split; [reflexivity | exact Hag].
  - apply quality_descending_cons in Hsorted as [Hr Hle].
    apply Forall_cons in Hpos as [He Hposr].
    destruct (query_entry_agree x e s b Hag He) as (s' & stop & Hq & Hag' & Hstop).
    rewrite Hq. simpl. destruct stop.
    + destruct (Hstop eq_refl) as (c & p & q & Hb & Hlt & Hsame).
      exists s'. split; [reflexivity|].
      rewrite Hsame.
      rewrite (consider_all_lower x r b c p q Hb).
      * rewrite <- Hsame. exact Hag'.
      * eapply Forall_impl; [exact Hle|]. simpl. intros; lia.
    + exact (IH Hr Hposr s' _ Hag').
Qed.

Lemma query_loop_agree self available :
  quality_descending self -> Forall (fun e => 0 < e.1) self ->
  forall s b, agree s b ->
  exists s', query_loop self available s = Ok s'
             /\ agree s' (fold_left (fun b x => fold_left (consider x) self b)
                            available b).
Proof.
  intros Hsorted Hpos. induction available as [|x r IH]; intros s b Hag; simpl.
  - exists s. split; [reflexivity | exact Hag].
  - destruct (query_entries_agree x self Hsorted Hpos s b Hag) as (s' & Hq & Hag').
    rewrite Hq. simpl. exact (IH s' _ Hag').
Qed.

(** On a range in descending quality order whose qualities are positive,
    [query] returns what the procedure of the specification computes. *)
Lemma query_refines_spec self available :
  quality_descending self -> Forall (fun e => 0 < e.1) self ->
  query self available = Ok (answer (query_spec self available)).
Proof.
  intros Hsorted Hpos. unfold query, query_spec.
  destruct (query_loop_agree self available Hsorted Hpos (mkQ None None 0) None eq_refl)
    as (s' & Hq & Hag).
  rewrite Hq. simpl.
  destruct (fold_left (fun b x => fold_left (consider x) self b) available None)
    as [[[c p] q]|]; simpl in Hag.
  - destruct Hag as [-> _]. reflexivity.
  - subst s'. reflexivity.
Qed.

(** [x in mt] between two types always has a result. *)
Lemma py_in_returns x (c : Type_) : py_in x (Some c) = Ok (contains c x).
Proof. reflexivity. Qed.

(** A first match of quality 0 meets [position] still [None]. *)
Lemma query_zero_quality_match mt x :
  matches x mt = true -> query [(0, mt)] [x] = Raise TypeError.
Proof.
  unfold matches, query. simpl. intros ->. reflexivity.
Qed.

(** C2: on a range in descending quality order whose qualities are positive
    [query] returns the final best triple of the procedure (candidates in
    caller order, entries in order, a match in either direction, replaced on a
    strictly greater quality or on an equal one with the pattern contained in
    the best's), or [None]; but on the range read from [text/html;q=0],
    queried with text/html, where the procedure has a triple to return,
    [query] raises [TypeError] at [mt in position]. *)
Theorem query_refines_spec_but_for_zero_quality :
  (forall (self : Range) (available : list Type_),
      quality_descending self -> Forall (fun e => 0 < e.1) self ->
      query self available = Ok (answer (query_spec self available)))
  /\ (let html := mkType (U "text") (U "html") ∅ in
      quality_descending [(0, html)]
      /\ query_spec [(0, html)] [html] = Some (html, html, 0)
      /\ query [(0, html)] [html] = Raise TypeError).
Proof.
  split; [exact query_refines_spec|]. simpl. split; [|split].
  - apply Sorted_quality_descending. repeat constructor.
  - vm_compute. reflexivity.
  - vm_compute. reflexivity.
Qed.

(** The range of [text/html;q=0.9, text/plain;q=1.0, application/xml;q=0.9]
    queried with text/html and application/xml. *)
Lemma query_refines_spec_but_for_zero_quality_witness :
  let plain := mkType (U "text") (U "plain") ∅ in
  let html := mkType (U "text") (U "html") ∅ in
  let xml := mkType (U "application") (U "xml") ∅ in
  query [(100, plain); (90, html); (90, xml)] [html; xml]
    = Ok (Some (html, Some html, 90)).
Proof.
  simpl.
  refine (eq_trans (proj1 query_refines_spec_but_for_zero_quality _ _ _ _) _).
  - apply Sorted_quality_descending. repeat constructor; unfold ge_quality; simpl; lia.
  - repeat constructor.
  - vm_compute. reflexivity.
Defined.

(** Without a match nothing changes. *)
Lemma query_entries_unmatched x self s :
  forallb (fun e => negb (matches x e.2)) self = true ->
  query_entries x self s = Ok s.
Proof.
  induction self as [|[q mt] r IH]; simpl; [reflexivity|].
  intros H. apply andb_true_iff in H as [Hm Hr].
  unfold matches in Hm. simpl in Hm. apply negb_true_iff in Hm.
  rewrite Hm. simpl. exact (IH Hr).
Qed.

Lemma query_unmatched self available :
  forallb (fun x => forallb (fun e => negb (matches x e.2)) self) available = true ->
  query self available = Ok None.
Proof.
  intros H. unfold query.
  assert (Hloop : query_loop self available (mkQ None None 0) = Ok (mkQ None None 0)).
  { generalize (mkQ None None 0). induction available as [|x r IH]; intros s;
      simpl; [reflexivity|].
    simpl in H. apply andb_true_iff in H as [Hx Hr].
    rewrite (query_entries_unmatched x self s Hx). simpl. exact (IH Hr s). }
  rewrite Hloop. reflexivity.
Qed.

(** [position] is [None] only while the quality is still 0, so that
    [mt in position] is only reached with [None] by an entry of quality 0. *)
Lemma query_entry_returns x e s :
  e.1 <> 0 -> (position s = None -> quality s = 0) ->
  exists s' stop,
    query_entry x e s = Ok (s', stop)
    /\ (position s' = None -> quality s' = 0).
Proof.
  intros Hq Hinv. destruct e as [q mt]. simpl in Hq. unfold query_entry.
  destruct (contains mt x || contains x mt); [|by eexists _, _].
  destruct (quality s <? q); [eexists _, _; split; [reflexivity | discriminate]|].
  destruct (Z.eqb_spec q (quality s)) as [Heq|Hne].
  - destruct (position s) as [p|] eqn:Hp; [|specialize (Hinv eq_refl); lia].
    simpl. destruct (contains p mt); eexists _, _; (split; [reflexivity|]).
    + discriminate.
    + rewrite Hp. discriminate.
  - destruct (_ && _); by eexists _, _.
Qed.

Lemma query_entries_returns x self :
  Forall (fun e => e.1 <> 0) self ->
  forall s, (position s = None -> quality s = 0) ->
  exists s', query_entries x self s = Ok s'
             /\ (position s' = None -> quality s' = 0).
Proof.
  induction 1 as [|e r He Hr IH]; intros s Hinv; simpl; [by exists s|].
  destruct (query_entry_returns x e s He Hinv) as (s' & stop & -> & Hinv').
  simpl. destruct stop; [by exists s' | exact (IH s' Hinv')].
Qed.

Lemma query_returns_without_zero_quality self available :
  Forall (fun e => e.1 <> 0) self -> returns (query self available).
Proof.
  intros Hq. unfold query.
  assert (Hloop : forall s, (position s = None -> quality s = 0) ->
            exists s', query_loop self available s = Ok s').
  { induction available as [|x r IH]; intros s Hinv; simpl; [by exists s|].
    destruct (query_entries_returns x self Hq s Hinv) as (s' & -> & Hinv').
    simpl. exact (IH s' Hinv'). }
  destruct (Hloop (mkQ None None 0) (fun _ => eq_refl)) as [s' ->]. simpl.
  destruct (current s'); by eexists.
Qed.

(** C4: containment between two types always returns a boolean, a query
    that nothing matches returns [None], and [query] returns on every range
    without an entry of quality 0; but it does fail: with the range of
    [text/html, image/png;q=0] and the candidate image/png, which only
    matches the entry of quality 0, it raises [TypeError]. *)
Theorem query_raises_on_zero_quality_match :
  (forall self mtype : Type_, exists r : bool, py_in mtype (Some self) = Ok r)
  /\ (forall (self : Range) (available : list Type_),
        forallb (fun x => forallb (fun e => negb (matches x e.2)) self) available
          = true ->
        query self available = Ok None)
  /\ (forall (self : Range) (available : list Type_),
        Forall (fun e => e.1 <> 0) self -> returns (query self available))
  /\ (let html := mkType (U "text") (U "html") ∅ in
      let png := mkType (U "image") (U "png") ∅ in
      query [(100, html); (0, png)] [png] = Raise TypeError).
Proof.
  split; [|split; [|split]].
  - intros self mtype. eexists. apply py_in_returns.
  - exact query_unmatched.
  - exact query_returns_without_zero_quality.
  - vm_compute. reflexivity.
Qed.

(** image/png matches nothing in the range of
    [text/html;q=0.9, text/plain;q=1.0, application/xml;q=0.9]. *)
Lemma query_raises_on_zero_quality_match_witness :
  query [(100, mkType (U "text") (U "plain") ∅);
         (90, mkType (U "text") (U "html") ∅);
         (90, mkType (U "application") (U "xml") ∅)]
        [mkType (U "image") (U "png") ∅] = Ok None.
Proof.
  apply (proj1 (proj2 query_raises_on_zero_quality_match)).
  vm_compute. reflexivity.
Defined.

End Query.

(** ** The quality of a parsed entry *)

Section Quality.

Lemma is_digit_In (c : ascii) : PyFloat.is_digit c = true -> In c digit_chars.
Proof.
  destruct c as [[] [] [] [] [] [] [] []]; vm_compute; intros H;
    try discriminate H; tauto.
Qed.

Lemma digit_strings_complete (n : nat) :
  forall ds : bytes,
    (length ds <= n)%nat -> forallb PyFloat.is_digit ds = true ->
    In ds (digit_strings n).
Proof.
  induction n as [|n IH]; intros [|c ds] Hlen Hall; simpl in Hlen;
    cbn [digit_strings].
  - by left.
  - lia.
  - by left.
  - right. simpl in Hall. apply andb_true_iff in Hall as [Hc Hds].
    apply in_flat_map. exists c. split; [by apply is_digit_In|].
    apply in_map, IH; [lia | exact Hds].
Qed.

Lemma zeros_enumerated (ds : bytes) :
  (length ds <= 3)%nat ->
  forallb (fun c => bool_decide (c = "0"%char)) ds = true ->
  In ds [B ""; B "0"; B "00"; B "000"].
Proof.
  intros Hlen Hall.
  assert (Hz : forall c, In c ds -> c = "0"%char).
  { intros c Hc. rewrite forallb_forall in Hall.
    specialize (Hall c Hc). by apply bool_decide_eq_true in Hall. }
  destruct ds as [|a [|b [|c [|d ds]]]]; simpl in Hlen; [| | | |lia].
  - by left.
  - rewrite (Hz a) by (by left). right. by left.
  - rewrite (Hz a), (Hz b) by (simpl; tauto). do 2 right. by left.
  - rewrite (Hz a), (Hz b), (Hz c) by (simpl; tauto). do 3 right. by left.
Qed.

Lemma is_qvalue_enumerated (q : bytes) : is_qvalue q = true -> In q all_qvalues.
Proof.
  unfold all_qvalues. rewrite !in_app_iff. destruct q as [|c r]; [discriminate|].
  destruct c as [[] [] [] [] [] [] [] []]; try discriminate; simpl is_qvalue.
  - (* 1 *)
    destruct r as [|d ds]; [intros _; left; right; by left|].
    destruct d as [[] [] [] [] [] [] [] []]; try discriminate.
    intros H. apply andb_true_iff in H as [Hlen Hall].
    apply Nat.leb_le in Hlen.
    right; right.
    apply (in_map (fun ds => "1"%char :: "."%char :: ds)).
    by apply zeros_enumerated.
  - (* 0 *)
    destruct r as [|d ds]; [intros _; left; by left|].
    destruct d as [[] [] [] [] [] [] [] []]; try discriminate.
    intros H. apply andb_true_iff in H as [Hlen Hall].
    apply Nat.leb_le in Hlen.
    right; left.
    apply (in_map (fun ds => "0"%char :: "."%char :: ds)).
    by apply digit_strings_complete.
Qed.

Lemma all_qvalues_ok : forallb quality_okb all_qvalues = true.
Proof. vm_compute. reflexivity. Qed.

Lemma quality_okb_sound (q : bytes) :
  quality_okb q = true -> exists n, percent_of (Some q) = Ok n /\ quality_ok q n.
Proof.
  unfold quality_okb, quality_ok.
  destruct (percent_of (Some q)) as [n|]; [|discriminate].
  rewrite !andb_true_iff, !Z.leb_le. intros H. exists n. split; [reflexivity|lia].
Qed.

Lemma qvalue_quality (q : bytes) :
  is_qvalue q = true -> exists n, percent_of (Some q) = Ok n /\ quality_ok q n.
Proof.
  intros H. apply quality_okb_sound.
  pose proof all_qvalues_ok as Hall. rewrite forallb_forall in Hall.
  by apply Hall, is_qvalue_enumerated.
Qed.

Lemma percent_of_None : percent_of None = Ok 100.
Proof. vm_compute. reflexivity. Qed.

Lemma split_loop_no_q (parts : list token) :
  Forall (fun t => t.1 <> B "q") parts ->
  forall mtype params,
    Forall (fun g : group => g.1.2 = None) (split_loop parts mtype None params).
Proof.
  induction 1 as [|x parts Hx Hparts IH]; intros mtype params; simpl.
  - by repeat constructor.
  - destruct (bool_decide (x.2 = None) && byte_in "/" x.1).
    + constructor; [reflexivity | apply IH].
    + rewrite bool_decide_eq_false_2 by exact Hx. apply IH.
Qed.

Section WithTools.

Context {tools : Tools}.

Lemma entries_of_quality (groups : list group) :
  forall l, entries_of groups = Ok l ->
  Forall2 (fun (g : group) (e : Z * Type_) => percent_of g.1.2 = Ok e.1) groups l.
Proof.
  induction groups as [|[[tpair quality] parameters] groups IH]; intros l; simpl.
  - intros [= <-]. constructor.
  - destruct (unpack2 _) as [[ct st]|]; simpl; [|discriminate].
    destruct (percent_of quality) as [n|] eqn:Hn; simpl; [|discriminate].
    destruct (decode_parameters _) as [ps|]; simpl; [|discriminate].
    destruct (entries_of groups) as [l'|]; simpl; [|discriminate].
    intros [= <-]. constructor; [exact Hn | by apply IH].
Qed.

Lemma parse_entries_quality (parts : list token) (l : list (Z * Type_)) :
  parse_entries parts = Ok l ->
  exists groups,
    split parts = Ok groups
    /\ Forall2 (fun (g : group) (e : Z * Type_) => percent_of g.1.2 = Ok e.1)
         groups l.
Proof.
  unfold parse_entries. destruct (split parts) as [groups|]; simpl; [|discriminate].
  intros H. exists groups. split; [reflexivity | by apply entries_of_quality].
Qed.

Lemma parse_entries_default (parts : list token) (l : list (Z * Type_)) :
  Forall (fun t => t.1 <> B "q") parts ->
  parse_entries parts = Ok l ->
  Forall (fun e => e.1 = 100) l.
Proof.
  intros Hq Hl. destruct (parse_entries_quality parts l Hl) as (groups & Hs & H2).
  destruct parts as [|x parts]; [discriminate|]. simpl in Hs. injection Hs as Hs.
  apply Forall_cons in Hq as [_ Hq].
  pose proof (split_loop_no_q parts Hq x.1 []) as Hnone.
  rewrite Hs in Hnone. clear Hs Hl Hq.
  induction H2 as [|g e gs es Hge _ IH]; constructor;
    apply Forall_cons in Hnone as [Hg Hgs].
  - rewrite Hg, percent_of_None in Hge. by injection Hge.
  - by apply IH.
Qed.

End WithTools.

Lemma all_qvalues_exact : forallb quality_exactb all_qvalues = true.
Proof. vm_compute. reflexivity. Qed.

Lemma qvalue_percent_exact (q : bytes) :
  is_qvalue q = true -> percent_of (Some q) = Ok (qvalue_percent q).
Proof.
  intros H. pose proof all_qvalues_exact as Hall. rewrite forallb_forall in Hall.
  specialize (Hall q (is_qvalue_enumerated q H)). unfold quality_exactb in Hall.
  destruct (percent_of (Some q)) as [n|]; [|discriminate].
  apply Z.eqb_eq in Hall. by rewrite Hall.
Qed.

Lemma percent_of_empty : percent_of (Some []) = Ok 100.
Proof. vm_compute. reflexivity. Qed.

(** Every series is a first token, the tokens up to the first type token,
    and groups that each start at a type token. *)
Lemma series_grouped (parts : list token) :
  exists seg rest,
    parts = seg ++ series_of rest
    /\ forallb (fun t => negb (type_token t)) seg = true
    /\ forallb (fun g : token * list token => type_token g.1) rest = true
    /\ forallb (fun g : token * list token =>
                  forallb (fun t => negb (type_token t)) g.2) rest = true.
Proof.
  induction parts as [|t parts (seg & rest & -> & Hseg & Hh & Hs)].
  - by exists [], [].
  - destruct (type_token t) eqn:Ht.
    + exists [], ((t, seg) :: rest). simpl. rewrite Ht, Hseg, Hh, Hs. by repeat split.
    + exists (t :: seg), rest. simpl. rewrite Ht, Hseg. by repeat split.
Qed.

Lemma series_well_grouped (x : token) (parts : list token) :
  exists groups, well_grouped groups = true /\ x :: parts = series_of groups.
Proof.
  destruct (series_grouped parts) as (seg & rest & -> & Hseg & Hh & Hs).
  exists ((x, seg) :: rest). split; [|reflexivity].
  unfold well_grouped. simpl. by rewrite Hh, Hseg, Hs.
Qed.

(** The tokens of a group set the quality and add no group. *)
Lemma split_loop_segment (seg : list token) :
  forallb (fun t => negb (type_token t)) seg = true ->
  forall tail mtype quality params,
    exists params',
      split_loop (seg ++ tail) mtype quality params
        = split_loop tail mtype (fold_left q_step seg quality) params'.
Proof.
  induction seg as [|t seg IH]; intros Hseg tail mtype quality params.
  - by exists params.
  - simpl in Hseg. apply andb_true_iff in Hseg as [Ht Hseg].
    apply negb_true_iff in Ht. unfold type_token in Ht.
    cbn [app split_loop fold_left]. rewrite Ht. unfold q_step at 2.
    destruct (bool_decide (t.1 = B "q")); apply (IH Hseg).
Qed.

Lemma split_loop_series (rest : list (token * list token)) :
  forallb (fun g : token * list token => type_token g.1) rest = true ->
  forallb (fun g : token * list token =>
             forallb (fun t => negb (type_token t)) g.2) rest = true ->
  forall seg mtype quality params,
    forallb (fun t => negb (type_token t)) seg = true ->
    exists ps grps,
      split_loop (seg ++ series_of rest) mtype quality params
        = (split_all "/" mtype, fold_left q_step seg quality, ps) :: grps
      /\ Forall2 group_of rest grps.
Proof.
  induction rest as [|[t s] rest IH]; intros Hh Hs seg mtype quality params Hseg.
  - change (series_of []) with (@nil token).
    destruct (split_loop_segment seg Hseg [] mtype quality params) as [ps ->].
    eexists _, []. split; [reflexivity | constructor].
  - simpl in Hh, Hs. apply andb_true_iff in Hh as [Ht Hh].
    apply andb_true_iff in Hs as [Hts Hs].
    destruct (split_loop_segment seg Hseg (series_of ((t, s) :: rest))
                mtype quality params) as [ps ->].
    change (series_of ((t, s) :: rest)) with (t :: (s ++ series_of rest)).
    cbn [split_loop]. fold (type_token t). rewrite Ht.
    destruct (IH Hh Hs s t.1 None [] Hts) as (ps' & grps & -> & Hgrps).
    eexists _, _. split; [reflexivity|].
    constructor; [|exact Hgrps]. by split.
Qed.

Section Grouping.

Context {tools : Tools}.

Lemma entries_of_fields (groups : list group) :
  forall l, entries_of groups = Ok l ->
  Forall2 (fun (grp : group) (e : Z * Type_) =>
             percent_of grp.1.2 = Ok e.1
             /\ map decode_ascii_surrogateescape grp.1.1 = [cotype e.2; subtype e.2])
    groups l.
Proof.
  induction groups as [|[[tpair quality] parameters] groups IH]; intros l; simpl.
  - intros [= <-]. constructor.
  - destruct (unpack2 _) as [[ct st]|] eqn:Hu; simpl; [|discriminate].
    destruct (percent_of quality) as [n|] eqn:Hn; simpl; [|discriminate].
    destruct (decode_parameters _) as [ps|]; simpl; [|discriminate].
    destruct (entries_of groups) as [l'|]; simpl; [|discriminate].
    intros [= <-]. constructor; [|by apply IH]. simpl. split; [exact Hn|].
    destruct (map decode_ascii_surrogateescape tpair) as [|u [|v [|w z]]];
      simpl in Hu; try discriminate. by injection Hu as -> ->.
Qed.

Lemma group_entries (rest : list (token * list token)) (grps : list group) :
  Forall2 group_of rest grps ->
  forall l : list (Z * Type_),
    Forall2 (fun (grp : group) (e : Z * Type_) =>
               percent_of grp.1.2 = Ok e.1
               /\ map decode_ascii_surrogateescape grp.1.1
                  = [cotype e.2; subtype e.2])
      grps l ->
    Forall2 entry_of rest l.
Proof.
  induction 1 as [|g grp rest grps [Hg1 Hg2] _ IH]; intros l Hl;
    inversion Hl as [|? e ? l' [Hq Ht] Hrest]; subst; constructor.
  - split; [by rewrite <- Hg2 | by rewrite <- Hg1].
  - by apply IH.
Qed.

Lemma parse_entries_grouped (groups : list (token * list token))
    (l : list (Z * Type_)) :
  well_grouped groups = true ->
  parse_entries (series_of groups) = Ok l ->
  Forall2 entry_of groups l.
Proof.
  destruct groups as [|[x seg] rest]; [discriminate|]. unfold well_grouped.
  intros Hwf. apply andb_true_iff in Hwf as [Hh Hs]. simpl in Hs.
  apply andb_true_iff in Hs as [Hseg Hs].
  unfold parse_entries.
  change (series_of ((x, seg) :: rest)) with (x :: (seg ++ series_of rest)).
  cbn [split]. unfold mbind at 1, result_bind at 1. cbv beta iota.
  destruct (split_loop_series rest Hh Hs seg x.1 None [] Hseg)
    as (ps & grps & -> & Hgrps).
  intros Hl. apply entries_of_fields in Hl.
  inversion Hl as [|grp e grps' l' [Hq Ht] Hrest]; subst.
  constructor; [by split|]. exact (group_entries rest grps Hgrps l' Hrest).
Qed.

Lemma Range_from_tokens_entries (parts : list token) (r : Range) :
  Range_from_tokens parts = Ok r ->
  exists l, parse_entries parts = Ok l /\ r ≡ₚ l.
Proof.
  unfold Range_from_tokens.
  destruct (parse_entries parts) as [l|]; simpl; [|discriminate].
  intros [= <-]. exists l. split; [reflexivity | apply sort_desc_perm].
Qed.

End Grouping.

(** C6, as amended: every token series is a first token and groups that
    start at a type token; the entry read for a type takes its content type
    and subtype from that token and its quality from the tokens of its own
    group, as [int(float(q or b'1.0') * 100)] for the value [q] of the last
    token named q there; the entries of the range are these entries,
    reordered.  The quality is 100 when the group has no q, or an empty one;
    for a [q] of the HTTP qvalue grammar it is within [0,100] and is the
    truncated hundredfold of [q], but for 0.29, 0.57 and 0.58, where the
    binary64 product falls just below it and the quality is one less (0.29
    gives 28).  Outside that grammar it need not be within [0,100] (2 gives
    200). *)
Theorem quality_of_range_entries :
  (forall (x : token) (parts : list token),
      exists groups, well_grouped groups = true /\ x :: parts = series_of groups)
  /\ (forall (tools : Tools) (groups : list (token * list token))
             (l : list (Z * Type_)),
        well_grouped groups = true ->
        parse_entries (series_of groups) = Ok l ->
        Forall2 (fun (g : token * list token) (e : Z * Type_) =>
                   percent_of (last_q g.2) = Ok e.1
                   /\ map decode_ascii_surrogateescape (split_all "/" g.1.1)
                      = [cotype e.2; subtype e.2])
          groups l)
  /\ (forall (tools : Tools) (parts : list token) (r : Range),
        Range_from_tokens parts = Ok r ->
        exists l, parse_entries parts = Ok l /\ r ≡ₚ l)
  /\ (forall (tools : Tools) (parts : list token) (l : list (Z * Type_)),
        Forall (fun t => t.1 <> B "q") parts ->
        parse_entries parts = Ok l ->
        Forall (fun e => e.1 = 100) l)
  /\ percent_of None = Ok 100
  /\ percent_of (Some []) = Ok 100
  /\ (forall q : bytes,
        is_qvalue q = true ->
        percent_of (Some q) = Ok (qvalue_percent q)
        /\ 0 <= qvalue_percent q <= 100
        /\ thousandths q / 10 - 1 <= qvalue_percent q <= thousandths q / 10)
  /\ percent_of (Some (B "0.29")) = Ok 28
  /\ percent_of (Some (B "2")) = Ok 200.
Proof.
  split; [exact series_well_grouped|].
  split; [intros tools groups l; apply parse_entries_grouped|].
  split; [intros tools; apply Range_from_tokens_entries|].
  split; [intros tools; apply parse_entries_default|].
  split; [exact percent_of_None|]. split; [exact percent_of_empty|].
  split; [|split; vm_compute; reflexivity].
  intros q Hq. pose proof (qvalue_percent_exact q Hq) as He.
  split; [exact He|].
  destruct (qvalue_quality q Hq) as (n & Hn & Hok & Hnear).
  rewrite He in Hn. injection Hn as <-. by split.
Qed.

(** In [text/html;q=0.5, text/plain] the quality 0.5 stays with text/html
    and text/plain has the default. *)
Lemma quality_of_range_entries_witness :
  Forall2 (fun (g : token * list token) (e : Z * Type_) =>
             percent_of (last_q g.2) = Ok e.1
             /\ map decode_ascii_surrogateescape (split_all "/" g.1.1)
                = [cotype e.2; subtype e.2])
    [((B "text/html", None), [(B "q", Some (B "0.5"))]);
     ((B "text/plain", None), [])]
    [(50, mkType (U "text") (U "html") ∅); (100, mkType (U "text") (U "plain") ∅)].
Proof.
  apply (proj1 (proj2 quality_of_range_entries) SpecTools.tools).
  - reflexivity.
  - vm_compute. reflexivity.
Defined.

(** C6 as stated does not hold: the media range [text/html;q=2] is read with
    the quality 200. *)
Lemma quality_above_100 :
  Range_from_bytes (tools := SpecTools.tools) (B "text/html;q=2")
    = Ok [(200, mkType (U "text") (U "html") ∅)]
  /\ ~ (0 <= 200 <= 100).
Proof. split; [vm_compute; reflexivity | lia]. Qed.

End Quality.

(** ** Parsing a type *)

Section TypeParser.

Lemma split1_spec (sep : ascii) (s : bytes) :
  match split1 sep s with
  | (a, None) => s = a /\ Forall (fun c => c <> sep) a
  | (a, Some b) => s = a ++ sep :: b /\ Forall (fun c => c <> sep) a
  end.
Proof.
  induction s as [|c r IH]; simpl.
  - split; [reflexivity | constructor].
  - destruct (decide (c = sep)) as [->|Hne].
    + split; [reflexivity | constructor].
    + destruct (split1 sep r) as [a [b|]]; destruct IH as [-> Ha];
        (split; [reflexivity | by constructor]).
Qed.

Lemma split1_none (sep : ascii) (a : bytes) :
  Forall (fun c => c <> sep) a -> split1 sep a = (a, None).
Proof.
  induction 1 as [|c a Hc Ha IH]; simpl; [reflexivity|].
  destruct (decide (c = sep)); [contradiction|]. by rewrite IH.
Qed.

Lemma split1_app (sep : ascii) (a b : bytes) :
  Forall (fun c => c <> sep) a -> split1 sep (a ++ sep :: b) = (a, Some b).
Proof.
  induction 1 as [|c a Hc Ha IH]; simpl.
  - destruct (decide (sep = sep)); [reflexivity | contradiction].
  - destruct (decide (c = sep)); [contradiction|]. by rewrite IH.
Qed.

Lemma byte_in_false (sep : ascii) (s : bytes) :
  byte_in sep s = false <-> Forall (fun c => c <> sep) s.
Proof.
  unfold byte_in. induction s as [|c r IH]; simpl.
  - split; [constructor | reflexivity].
  - rewrite orb_false_iff, bool_decide_eq_false, IH, Forall_cons. reflexivity.
Qed.

Lemma split_max1_without (sep : ascii) (s : bytes) :
  byte_in sep s = false -> split_max1 sep s = [s].
Proof.
  intros H. unfold split_max1.
  by rewrite (split1_none sep s (proj1 (byte_in_false sep s) H)).
Qed.

Lemma split_max1_with (sep : ascii) (s : bytes) :
  byte_in sep s = true ->
  exists a b, split_max1 sep s = [a; b] /\ s = a ++ sep :: b
              /\ Forall (fun c => c <> sep) a.
Proof.
  intros H. unfold split_max1. pose proof (split1_spec sep s) as Hs.
  destruct (split1 sep s) as [a [b|]]; destruct Hs as [Hs Ha].
  - by exists a, b.
  - subst a. apply byte_in_false in Ha. congruence.
Qed.

Lemma hd_split_max1 (s : bytes) : hd [] (split_max1 ";" s) = base_segment s.
Proof.
  unfold split_max1, base_segment. by destruct (split1 ";" s) as [a [b|]].
Qed.

Lemma encode_ascii_accepts (s : pystr) :
  forallb ascii_encodable s = true ->
  exists b, encode_ascii_surrogateescape s = Ok b.
Proof.
  induction s as [|c r IH]; simpl; [by eexists|].
  intros H. apply andb_true_iff in H as [Hc Hr]. destruct (IH Hr) as [b ->].
  unfold ascii_encodable in Hc. simpl.
  destruct (c <? 128)%N; [by eexists|]. simpl in Hc. rewrite Hc. by eexists.
Qed.

Lemma encode_ascii_refuses (s : pystr) :
  forallb ascii_encodable s = false ->
  encode_ascii_surrogateescape s = Raise UnicodeEncodeError.
Proof.
  induction s as [|c r IH]; simpl; [discriminate|].
  intros H. apply andb_false_iff in H. unfold ascii_encodable in H.
  destruct (c <? 128)%N; simpl in H |- *.
  - destruct H as [H|H]; [discriminate|]. by rewrite (IH H).
  - destruct ((56448 <=? c)%N && (c <=? 56575)%N); [|reflexivity].
    destruct H as [H|H]; [discriminate|]. by rewrite (IH H).
Qed.

Section WithTools.

Context {tools : Tools}.

Lemma from_bytes_without_slash (string : bytes) (parameters : list param) :
  byte_in "/" (base_segment string) = false ->
  from_bytes string parameters = Raise ValueError.
Proof.
  intros H. unfold from_bytes.
  by rewrite hd_split_max1, (split_max1_without _ _ H).
Qed.

Lemma from_bytes_with_slash (string : bytes) (parameters : list param) :
  byte_in "/" (base_segment string) = true ->
  returns (from_bytes string parameters) <->
  exists series decoded,
    split_parameter_series (series_segment string) = Ok series
    /\ decode_parameters series = Ok decoded.
Proof.
  intros H. unfold from_bytes, returns. rewrite hd_split_max1.
  destruct (split_max1_with _ _ H) as (a & b & -> & _ & _). simpl.
  fold (series_segment string).
  destruct (split_parameter_series (series_segment string)) as [series|e]; simpl.
  - destruct (decode_parameters series) as [decoded|e] eqn:Hd; simpl.
    + split; [intros _; by exists series, decoded | intros _; by eexists].
    + split; [intros [? [=]] | intros (? & ? & [= <-] & Hd')]. congruence.
  - split; [intros [? [=]] | intros (? & ? & [=] & _)].
Qed.

End WithTools.

(** C7, as amended: [from_bytes] raises (a [ValueError]) when the input
    before the first [;] has no [/]; when it has one, [from_bytes] returns
    exactly when the parameter codec reads the series after the [;];
    [from_string] first encodes its argument and raises
    [UnicodeEncodeError], [/] or not, when a character is neither ASCII nor
    an escaped byte, and is [from_bytes] on the encoded input otherwise. *)
Theorem type_parser_failures (tools : Tools) (parameters : list param) :
  (forall string : bytes,
      byte_in "/" (base_segment string) = false ->
      from_bytes string parameters = Raise ValueError)
  /\ (forall string : bytes,
        byte_in "/" (base_segment string) = true ->
        returns (from_bytes string parameters) <->
        exists series decoded,
          split_parameter_series (series_segment string) = Ok series
          /\ decode_parameters series = Ok decoded)
  /\ (forall s : pystr,
        forallb ascii_encodable s = false ->
        from_string s parameters = Raise UnicodeEncodeError)
  /\ (forall s : pystr,
        forallb ascii_encodable s = true ->
        exists b, encode_ascii_surrogateescape s = Ok b
                  /\ from_string s parameters = from_bytes b parameters).
Proof.
  split; [|split; [|split]].
  - intros string. apply from_bytes_without_slash.
  - intros string. apply from_bytes_with_slash.
  - intros s H. unfold from_string. by rewrite (encode_ascii_refuses s H).
  - intros s H. destruct (encode_ascii_accepts s H) as [b Hb].
    exists b. split; [exact Hb|]. unfold from_string. by rewrite Hb.
Qed.

(** [texthtml] has no [/]. *)
Lemma type_parser_failures_witness :
  from_bytes (tools := SpecTools.tools) (B "texthtml") [] = Raise ValueError.
Proof.
  apply (proj1 (type_parser_failures SpecTools.tools []) (B "texthtml")).
  reflexivity.
Defined.

(** C7 as stated does not hold: the string [a/é] has a [/] and no [;],
    and [from_string] fails on it. *)
Lemma from_string_fails_with_slash :
  let s : pystr := [97; 47; 233]%N in
  (47%N ∈ s /\ 59%N ∉ s)
  /\ from_string (tools := SpecTools.tools) s [] = Raise UnicodeEncodeError.
Proof.
  simpl. split; [|reflexivity]. split; [set_solver|].
  intros H. repeat (apply elem_of_cons in H as [H|H]; [discriminate|]).
  by apply elem_of_nil in H.
Qed.

End TypeParser.

(** ** Writing a type and reading it back *)

Lemma lstrip_Forall (P : ascii -> Prop) (x : bytes) :
  Forall P x -> Forall P (lstrip x).
Proof.
  induction 1 as [|c x Hc Hx IH]; simpl; [constructor|].
  destruct (is_space c); [exact IH | by constructor].
Qed.

Lemma strip_Forall (P : ascii -> Prop) (x : bytes) :
  Forall P x -> Forall P (strip x).
Proof.
  intros H. unfold strip, rstrip.
  apply Forall_rev, lstrip_Forall, Forall_rev, lstrip_Forall, H.
Qed.

Lemma lstrip_head (x : bytes) :
  match lstrip x with
  | [] => True
  | c :: _ => is_space c = false
  end.
Proof.
  induction x as [|c x IH]; simpl; [exact I|].
  destruct (is_space c) eqn:E; [exact IH | exact E].
Qed.

Lemma lstrip_id (x : bytes) :
  match x with
  | [] => True
  | c :: _ => is_space c = false
  end -> lstrip x = x.
Proof. destruct x as [|c x]; simpl; [reflexivity|]. by intros ->. Qed.

Lemma lstrip_idemp (x : bytes) : lstrip (lstrip x) = lstrip x.
Proof. apply lstrip_id, lstrip_head. Qed.

Lemma lstrip_snoc (x : bytes) (c : ascii) :
  is_space c = false -> lstrip (x ++ [c]) = lstrip x ++ [c].
Proof.
  intros Hc. induction x as [|d x IH]; simpl; [by rewrite Hc|].
  destruct (is_space d); [exact IH | reflexivity].
Qed.

Lemma rstrip_cons (c : ascii) (x : bytes) :
  is_space c = false -> rstrip (c :: x) = c :: rstrip x.
Proof.
  intros Hc. unfold rstrip. simpl.
  by rewrite (lstrip_snoc _ _ Hc), rev_app_distr.
Qed.

Lemma rstrip_idemp (x : bytes) : rstrip (rstrip x) = rstrip x.
Proof. unfold rstrip. by rewrite rev_involutive, lstrip_idemp. Qed.

Lemma strip_idemp (x : bytes) : strip (strip x) = strip x.
Proof.
  unfold strip. pose proof (lstrip_head x) as Hh.
  destruct (lstrip x) as [|c y]; [reflexivity|].
  rewrite (rstrip_cons c y Hh). simpl. rewrite Hh.
  by rewrite <- (rstrip_cons c y Hh), rstrip_idemp.
Qed.

Lemma encode_ascii_bytes (s : pystr) (b : bytes) :
  forallb (fun c => c <? 128)%N s = true ->
  encode_ascii_surrogateescape s = Ok b -> Forall is_ascii_byte b.
Proof.
  revert b. induction s as [|c r IH]; simpl; intros b Hs.
  - intros [= <-]. constructor.
  - apply andb_true_iff in Hs as [Hc Hr]. rewrite Hc.
    destruct (encode_ascii_surrogateescape r) as [b'|]; simpl; [|discriminate].
    intros [= <-]. constructor; [|by apply IH].
    apply N.ltb_lt in Hc. unfold is_ascii_byte.
    rewrite N_ascii_embedding; lia.
Qed.

Lemma encode_utf8_decode (b : bytes) :
  Forall is_ascii_byte b ->
  encode_utf8 (decode_ascii_surrogateescape b) = Ok b.
Proof.
  induction 1 as [|c b Hc Hb IH]; simpl; [reflexivity|].
  unfold is_ascii_byte in Hc. apply N.ltb_lt in Hc. rewrite Hc.
  unfold utf8_char. rewrite Hc. simpl. rewrite IH. simpl.
  by rewrite ascii_N_embedding.
Qed.

Lemma encode_ascii_decode (b : bytes) :
  encode_ascii_surrogateescape (decode_ascii_surrogateescape b) = Ok b.
Proof.
  induction b as [|c b IH]; simpl; [reflexivity|].
  pose proof (N_ascii_bounded c) as Hb.
  destruct (N.ltb_spec (N_of_ascii c) 128) as [Hlt|Hge].
  - rewrite (proj2 (N.ltb_lt _ _) Hlt), IH. simpl. by rewrite ascii_N_embedding.
  - destruct (N.ltb_spec (56320 + N_of_ascii c) 128) as [|_]; [lia|].
    destruct (N.leb_spec 56448 (56320 + N_of_ascii c)) as [_|]; [|lia].
    destruct (N.leb_spec (56320 + N_of_ascii c) 56575) as [_|]; [|lia].
    simpl. rewrite IH. simpl.
    replace (56320 + N_of_ascii c - 56320)%N with (N_of_ascii c) by lia.
    by rewrite ascii_N_embedding.
Qed.

Lemma base_segment_spec (string : bytes) :
  (exists rest, string = base_segment string ++ rest)
  /\ Forall (fun c => c <> ";"%char) (base_segment string).
Proof.
  unfold base_segment. pose proof (split1_spec ";" string) as H.
  destruct (split1 ";" string) as [a [b|]]; destruct H as [-> Ha]; simpl.
  - split; [by eexists | exact Ha].
  - split; [exists []; by rewrite app_nil_r | exact Ha].
Qed.

Section WithTools.

Context {tools : Tools}.
Variable iter_frozenset : gset param -> list param.

(** Reading [ct/st], followed or not by [;] and a series. *)
Lemma from_bytes_written (ct st : bytes) (tail : option bytes) (P : gset param) :
  strip ct = ct -> strip st = st ->
  Forall (fun c => c <> ";"%char) ct -> Forall (fun c => c <> ";"%char) st ->
  Forall (fun c => c <> "/"%char) ct ->
  reads_back (default [] tail) P ->
  from_bytes
    (join_bytes (B "/") [ct; st]
       ++ match tail with Some ser => B ";" ++ ser | None => [] ++ [] end) [] =
  Ok (mkType (decode_ascii_surrogateescape ct) (decode_ascii_surrogateescape st) P).
Proof.
  intros Hct Hst Hsc1 Hsc2 Hsl (series & decoded & Hs & Hd & HP).
  assert (Hbase : Forall (fun c => c <> ";"%char) (ct ++ "/"%char :: st)).
  { apply Forall_app. split; [exact Hsc1|]. constructor; [discriminate | exact Hsc2]. }
  unfold from_bytes, split_max1.
  change (join_bytes (B "/") [ct; st]) with (ct ++ "/"%char :: st).
  assert (Hsplit : split1 ";" ((ct ++ "/"%char :: st)
             ++ match tail with Some ser => B ";" ++ ser | None => [] ++ [] end)
           = (ct ++ "/"%char :: st, tail)).
  { destruct tail as [ser|].
    - change (B ";" ++ ser) with (";"%char :: ser). by apply split1_app.
    - simpl. rewrite app_nil_r. by apply split1_none. }
  rewrite Hsplit. clear Hsplit.
  destruct tail as [ser|]; simpl in Hs |- *;
    rewrite Hs; simpl; rewrite (split1_app "/" ct st Hsl); simpl;
    rewrite Hct, Hst, Hd; simpl; by rewrite app_nil_r, HP.
Qed.

Lemma type_round_trip_aux (s : pystr) (t : Type_) :
  forallb (fun c => c <? 128)%N s = true ->
  from_string s [] = Ok t ->
  codec_round_trips iter_frozenset (parameters t) ->
  exists s', to_string iter_frozenset t = Ok s' /\ from_string s' [] = Ok t.
Proof.
  intros Hascii Hparse Hcodec.
  unfold from_string in Hparse.
  destruct (encode_ascii_surrogateescape s) as [b0|] eqn:Henc; simpl in Hparse;
    [|discriminate].
  pose proof (encode_ascii_bytes s b0 Hascii Henc) as Hb0.
  destruct (base_segment_spec b0) as [[rest Hrest] Hsemi].
  assert (Hbase : Forall is_ascii_byte (base_segment b0)).
  { rewrite Hrest in Hb0. by apply Forall_app in Hb0 as [? _]. }
  unfold from_bytes in Hparse. rewrite hd_split_max1 in Hparse.
  destruct (byte_in "/" (base_segment b0)) eqn:Hslash.
  2:{ by rewrite (split_max1_without _ _ Hslash) in Hparse. }
  destruct (split_max1_with _ _ Hslash) as (a & b & Hab & Hbase_eq & Hslash_a).
  rewrite Hab in Hparse. simpl in Hparse.
  destruct (split_parameter_series _) as [series|]; simpl in Hparse; [|discriminate].
  destruct (decode_parameters series) as [decoded|]; simpl in Hparse; [|discriminate].
  injection Hparse as <-. simpl in Hcodec.
  set (P := list_to_set (decoded ++ []) : gset param) in *.
  rewrite Hbase_eq in Hsemi, Hbase.
  apply Forall_app in Hsemi as [Hsemi_a Hsemi_b].
  apply Forall_cons in Hsemi_b as [_ Hsemi_b].
  apply Forall_app in Hbase as [Hascii_a Hascii_b].
  apply Forall_cons in Hascii_b as [_ Hascii_b].
  unfold to_string, to_bytes. simpl.
  rewrite !encode_utf8_decode by (by apply strip_Forall).
  unfold codec_round_trips in Hcodec.
  destruct (truthy P).
  - destruct Hcodec as (encoded & ser & He & Hj & Hread).
    rewrite He. simpl. rewrite Hj. simpl.
    eexists. split; [reflexivity|].
    unfold from_string. rewrite encode_ascii_decode. simpl.
    apply (from_bytes_written (strip a) (strip b) (Some ser) P);
      auto using strip_idemp, strip_Forall.
  - simpl. eexists. split; [reflexivity|].
    unfold from_string. rewrite encode_ascii_decode. simpl.
    apply (from_bytes_written (strip a) (strip b) None P);
      auto using strip_idemp, strip_Forall.
Qed.

End WithTools.

(** C8: for an ASCII string [s] that [from_string] reads as [t], and
    parameters that the codec reads back as it writes them, the string of
    [t] is read by [from_string] as [t] again. *)
Theorem type_round_trip (tools : Tools) (iter_frozenset : gset param -> list param)
    (s : pystr) (t : Type_) :
  forallb (fun c => c <? 128)%N s = true ->
  from_string s [] = Ok t ->
  codec_round_trips iter_frozenset (parameters t) ->
  exists s', to_string iter_frozenset t = Ok s' /\ from_string s' [] = Ok t.
Proof. apply type_round_trip_aux. Qed.

(** [text/html;level=1] with the codec of the specification. *)
Lemma type_round_trip_witness :
  let t := mkType (U "text") (U "html") {[ (U "level", Some (U "1")) ]} in
  exists s', to_string (tools := SpecTools.tools) elements t = Ok s'
             /\ from_string (tools := SpecTools.tools) s' [] = Ok t.
Proof.
  apply (type_round_trip SpecTools.tools elements (U "text/html;level=1")).
  - reflexivity.
  - vm_compute. reflexivity.
  - unfold codec_round_trips.
    replace (truthy _) with true by (vm_compute; reflexivity).
    exists [(B "level", Some (B "1"))], (B "level=1").
    split; [vm_compute; reflexivity|]. split; [vm_compute; reflexivity|].
    exists [(B "level", Some (B "1"))], [(U "level", Some (U "1"))].
    split; [vm_compute; reflexivity|]. split; [vm_compute; reflexivity|].
    reflexivity.
Defined.

(** ** More on containment *)

Lemma contains_refl (t : Type_) : contains t t = true.
Proof.
  apply contains_true. unfold contains_spec.
  split; [by right|]. split; [by right|].
  destruct (decide (parameters t = ∅)) as [He|Hne]; [by left|].
  right. split; [exact Hne | auto].
Qed.

Lemma wildcard_eq (x y : pystr) :
  x = star \/ x = y -> y = star \/ y = x -> x = y.
Proof. intros [Hx|Hx] [Hy|Hy]; congruence. Qed.

Lemma contains_antisym (a b : Type_) :
  contains a b = true -> contains b a = true -> a = b.
Proof.
  rewrite !contains_true. unfold contains_spec.
  intros (Hc1 & Hs1 & Hp1) (Hc2 & Hs2 & Hp2).
  destruct a as [ca sa pa], b as [cb sb pb]; simpl in *.
  rewrite (wildcard_eq ca cb Hc1 Hc2), (wildcard_eq sa sb Hs1 Hs2).
  f_equal.
  destruct Hp1 as [->|[Hb Hba]].
  - destruct Hp2 as [->|[Ha _]]; [reflexivity | contradiction].
  - destruct Hp2 as [->|[_ Hab]]; [contradiction|].
    apply set_eq. intros p. split; auto.
Qed.

(** X1: every type contains itself, whatever its parameters. *)
Theorem containment_reflexive (t : Type_) : contains t t = true.
Proof. apply contains_refl. Qed.

(** X2: two types that contain each other are equal, so that containment,
    being reflexive and transitive as well, is a partial order. *)
Theorem containment_antisymmetric (a b : Type_) :
  contains a b = true -> contains b a = true -> a = b.
Proof. apply contains_antisym. Qed.

(** Two spellings of [*/*]. *)
Lemma containment_antisymmetric_witness : any_type = mkType (U "*") (U "*") ∅.
Proof.
  apply (containment_antisymmetric any_type (mkType (U "*") (U "*") ∅));
    vm_compute; reflexivity.
Defined.

(** X3: [any_type] contains every type, and is the only type that contains
    [any_type]. *)
Theorem any_type_greatest (t : Type_) :
  contains any_type t = true
  /\ (contains t any_type = true <-> t = any_type).
Proof.
  assert (Hany : contains any_type t = true).
  { apply contains_true. unfold contains_spec. simpl. auto. }
  split; [exact Hany|]. split.
  - intros H. by apply contains_antisym.
  - intros ->. apply contains_refl.
Qed.

(** X4: a type that is not a pattern only contains types of its own content
    type and subtype, and contains all of them when it has no parameters. *)
Theorem concrete_type_contains (t u : Type_) :
  pattern t = false ->
  (contains t u = true -> cotype u = cotype t /\ subtype u = subtype t)
  /\ (parameters t = ∅ ->
      cotype u = cotype t -> subtype u = subtype t -> contains t u = true).
Proof.
  unfold pattern. rewrite orb_false_iff, !bool_decide_eq_false.
  intros [Hc Hs]. rewrite contains_true. unfold contains_spec. split.
  - intros ([Hc'|Hc'] & [Hs'|Hs'] & _); try congruence. by split.
  - intros Hp Hcu Hsu. rewrite Hcu, Hsu. auto.
Qed.

(** text/html contains text/html;level=1. *)
Lemma concrete_type_contains_witness :
  contains (mkType (U "text") (U "html") ∅)
           (mkType (U "text") (U "html") {[ (U "level", Some (U "1")) ]}) = true.
Proof.
  apply (proj2 (concrete_type_contains (mkType (U "text") (U "html") ∅)
                  (mkType (U "text") (U "html") {[ (U "level", Some (U "1")) ]})
                  eq_refl)); reflexivity.
Defined.

(** ** More on negotiation *)

Section QuerySound.

Variables (self : Range) (available : list Type_).

Lemma query_entry_chosen (x : Type_) (e : Z * Type_) (s s' : qstate) (stop : bool) :
  chosen self available s -> x ∈ available -> e ∈ self ->
  query_entry x e s = Ok (s', stop) -> chosen self available s'.
Proof.
  intros Hs Hx He. destruct e as [q mt]. unfold query_entry.
  assert (Hq0 : 0 <= quality s).
  { unfold chosen in Hs. destruct (current s).
    - destruct Hs as (_ & mt' & _ & _ & _ & ?). lia.
    - destruct Hs as [_ ->]. lia. }
  destruct (contains mt x || contains x mt) eqn:Hm; [|by intros [= <- _]].
  destruct (Z.ltb_spec (quality s) q) as [Hlt|Hge].
  - intros [= <- _]. unfold chosen. simpl. split; [exact Hx|].
    exists mt. repeat split; [exact He | exact Hm | lia].
  - destruct (Z.eqb_spec q (quality s)) as [->|Hne].
    + pose proof Hs as Hs'. unfold chosen in Hs'.
      destruct (position s) as [p|] eqn:Hp; simpl; [|discriminate].
      destruct (contains p mt); [|by intros [= <- _]].
      intros [= <- _]. destruct (current s) as [c|].
      * destruct Hs' as (_ & mt' & _ & _ & _ & Hpos).
        unfold chosen. simpl. split; [exact Hx|].
        exists mt. repeat split; [exact He | exact Hm | exact Hpos].
      * by destruct Hs' as [[=] _].
    + destruct (_ && _); by intros [= <- _].
Qed.

Lemma query_entries_chosen (x : Type_) (l : Range) :
  x ∈ available -> l ⊆ self ->
  forall s s', chosen self available s ->
  query_entries x l s = Ok s' -> chosen self available s'.
Proof.
  intros Hx. induction l as [|e r IH]; intros Hl s s' Hs; simpl.
  - by intros [= <-].
  - destruct (query_entry x e s) as [[s1 stop]|] eqn:He; simpl; [|discriminate].
    assert (Hs1 : chosen self available s1).
    { eapply query_entry_chosen; [exact Hs | exact Hx | | exact He].
      apply Hl. by left. }
    destruct stop; [by intros [= <-]|].
    apply IH; [|exact Hs1]. intros y Hy. apply Hl. by right.
Qed.

Lemma query_loop_chosen (l : list Type_) :
  l ⊆ available ->
  forall s s', chosen self available s ->
  query_loop self l s = Ok s' -> chosen self available s'.
Proof.
  induction l as [|x r IH]; intros Hl s s' Hs; simpl.
  - by intros [= <-].
  - destruct (query_entries x self s) as [s1|] eqn:He; simpl; [|discriminate].
    apply IH.
    + intros y Hy. apply Hl. by right.
    + eapply query_entries_chosen; [| |exact Hs|exact He]; [|done].
      apply Hl. by left.
Qed.

Lemma query_chosen (c : Type_) (p : option Type_) (q : Z) :
  query self available = Ok (Some (c, p, q)) ->
  c ∈ available
  /\ exists mt, p = Some mt /\ (q, mt) ∈ self /\ matches c mt = true /\ 0 < q.
Proof.
  unfold query.
  destruct (query_loop self available (mkQ None None 0)) as [s|] eqn:Hl; simpl;
    [|discriminate].
  assert (Hs : chosen self available s).
  { eapply query_loop_chosen; [done| |exact Hl]. by split. }
  unfold chosen in Hs. destruct (current s) as [c'|]; [|discriminate].
  intros [= <- <- <-]. exact Hs.
Qed.

(** A state that has a candidate keeps one. *)
Lemma query_entry_keeps (x : Type_) (e : Z * Type_) (s s' : qstate) (stop : bool) :
  query_entry x e s = Ok (s', stop) -> current s <> None -> current s' <> None.
Proof.
  destruct e as [q mt]. unfold query_entry.
  destruct (contains mt x || contains x mt); [|by intros [= <- _]].
  destruct (quality s <? q); [by intros [= <- _]|].
  destruct (q =? quality s).
  - destruct (position s) as [p|]; simpl; [|discriminate].
    destruct (contains p mt); by intros [= <- _].
  - destruct (_ && _); by intros [= <- _].
Qed.

(** A match of positive quality gives a candidate to a state without one. *)
Lemma query_entry_takes (x : Type_) (e : Z * Type_) (s s' : qstate) (stop : bool) :
  chosen self available s -> 0 < e.1 -> matches x e.2 = true ->
  query_entry x e s = Ok (s', stop) -> current s' <> None.
Proof.
  intros Hs Hpos Hm. destruct (current s) as [c|] eqn:Hc.
  - intros He. eapply query_entry_keeps; [exact He|]. by rewrite Hc.
  - unfold chosen in Hs. rewrite Hc in Hs. destruct Hs as [_ Hq].
    destruct e as [q mt]. unfold query_entry. unfold matches in Hm. simpl in *.
    rewrite Hm, Hq. destruct (Z.ltb_spec 0 q); [|lia]. by intros [= <- _].
Qed.

Lemma query_entries_takes (x : Type_) (l : Range) :
  x ∈ available -> l ⊆ self -> Forall (fun e => 0 < e.1) l ->
  forall s s', chosen self available s ->
  query_entries x l s = Ok s' ->
  current s <> None \/ (exists e, e ∈ l /\ matches x e.2 = true) ->
  current s' <> None.
Proof.
  intros Hx. induction l as [|e r IH]; intros Hl Hpos s s' Hs; simpl.
  - intros [= <-] [H|(e & He & _)]; [exact H|]. by apply elem_of_nil in He.
  - apply Forall_cons in Hpos as [Hpe Hpr].
    destruct (query_entry x e s) as [[s1 stop]|] eqn:He; simpl; [|discriminate].
    assert (Hs1 : chosen self available s1).
    { eapply query_entry_chosen; [exact Hs | exact Hx | | exact He].
      apply Hl. by left. }
    assert (Hr : r ⊆ self) by (intros y Hy; apply Hl; by right).
    intros Hres Hor.
    assert (Hnext : current s1 <> None
                    \/ (exists e', e' ∈ r /\ matches x e'.2 = true)).
    { destruct Hor as [H|(e' & He' & Hm)].
      - left. eapply query_entry_keeps; [exact He | exact H].
      - apply elem_of_cons in He' as [->|He'].
        + left. eapply query_entry_takes; [exact Hs | exact Hpe | exact Hm | exact He].
        + right. by exists e'. }
    destruct stop.
    + injection Hres as <-. destruct Hnext as [H|(e' & He' & Hm)]; [exact H|].
      (* a [break] only happens with a candidate *)
      destruct e as [q mt]. unfold query_entry in He.
      destruct (contains mt x || contains x mt); [|discriminate He].
      destruct (quality s <? q); [discriminate He|].
      destruct (q =? quality s).
      * destruct (position s); simpl in He; [|discriminate He].
        destruct (contains _ mt); discriminate He.
      * destruct (bool_decide (current s <> None)) eqn:Hb; simpl in He.
        -- destruct (q <? quality s); [|discriminate He].
           injection He as <-. by apply bool_decide_eq_true in Hb.
        -- discriminate He.
    + exact (IH Hr Hpr s1 s' Hs1 Hres Hnext).
Qed.

Lemma query_loop_takes (l : list Type_) :
  l ⊆ available -> Forall (fun e => 0 < e.1) self ->
  forall s s', chosen self available s ->
  query_loop self l s = Ok s' ->
  current s <> None
  \/ (exists x e, x ∈ l /\ e ∈ self /\ matches x e.2 = true) ->
  current s' <> None.
Proof.
  intros Hl Hpos. induction l as [|x r IH]; intros s s' Hs; simpl.
  - intros [= <-] [H|(x & e & Hx & _)]; [exact H|]. by apply elem_of_nil in Hx.
  - destruct (query_entries x self s) as [s1|] eqn:He; simpl; [|discriminate].
    assert (Hx : x ∈ available) by (apply Hl; by left).
    assert (Hr : r ⊆ available) by (intros y Hy; apply Hl; by right).
    assert (Hs1 : chosen self available s1).
    { eapply query_entries_chosen; [exact Hx | done | exact Hs | exact He]. }
    intros Hres Hor. apply (IH Hr s1 s' Hs1 Hres).
    destruct Hor as [H|(y & e & Hy & He' & Hm)].
    + left. eapply query_entries_takes; [exact Hx|done|exact Hpos|exact Hs|exact He|].
      by left.
    + apply elem_of_cons in Hy as [->|Hy].
      * left. eapply query_entries_takes;
          [exact Hx|done|exact Hpos|exact Hs|exact He|].
        right. by exists e.
      * right. by exists y, e.
Qed.

End QuerySound.

(** X5: whatever triple [query] returns, its candidate is one of the
    candidates given, its pattern is the type of an entry of the range with
    the returned quality, candidate and pattern match, and the quality is
    positive; an entry of quality 0 or less is never returned. *)
Theorem query_result_sound (self : Range) (available : list Type_)
    (c : Type_) (p : option Type_) (q : Z) :
  query self available = Ok (Some (c, p, q)) ->
  c ∈ available
  /\ exists mt, p = Some mt /\ (q, mt) ∈ self /\ matches c mt = true /\ 0 < q.
Proof. apply query_chosen. Qed.

(** The range of [text/html, text/*;q=0.5] queried with text/plain. *)
Lemma query_result_sound_witness :
  let plain := mkType (U "text") (U "plain") ∅ in
  let range := [(100, mkType (U "text") (U "html") ∅);
                (50, mkType (U "text") (U "*") ∅)] in
  plain ∈ [plain]
  /\ exists mt, Some (mkType (U "text") (U "*") ∅) = Some mt
                /\ (50, mt) ∈ range /\ matches plain mt = true /\ 0 < 50.
Proof.
  simpl. apply query_result_sound. vm_compute. reflexivity.
Defined.

(** X6: on a range whose qualities are all positive, sorted or not,
    [query] returns [None] exactly when no candidate matches any entry. *)
Theorem query_none_iff_unmatched (self : Range) (available : list Type_) :
  Forall (fun e => 0 < e.1) self ->
  query self available = Ok None <->
  (forall x e, x ∈ available -> e ∈ self -> matches x e.2 = false).
Proof.
  intros Hpos. split.
  - unfold query.
    destruct (query_loop self available (mkQ None None 0)) as [s|] eqn:Hl; simpl;
      [|discriminate].
    destruct (current s) as [c|] eqn:Hc; [discriminate|]. intros _ x e Hx He.
    destruct (matches x e.2) eqn:Hm; [|reflexivity]. exfalso.
    refine (query_loop_takes self available available _ Hpos _ s _ Hl _ Hc);
      [done | by split |].
    right. by exists x, e.
  - intros H. apply query_unmatched.
    apply forallb_forall. intros x Hx. apply forallb_forall. intros e He.
    apply negb_true_iff, H; by apply list_elem_of_In.
Qed.

(** image/png against the range of [text/html, text/*;q=0.5]. *)
Lemma query_none_iff_unmatched_witness :
  query [(100, mkType (U "text") (U "html") ∅); (50, mkType (U "text") (U "*") ∅)]
        [mkType (U "image") (U "png") ∅] = Ok None.
Proof.
  apply (proj2 (query_none_iff_unmatched
                  [(100, mkType (U "text") (U "html") ∅);
                   (50, mkType (U "text") (U "*") ∅)]
                  [mkType (U "image") (U "png") ∅]
                  ltac:(repeat constructor))).
  intros x e Hx He.
  apply elem_of_cons in Hx as [->|Hx]; [|by apply elem_of_nil in Hx].
  apply elem_of_cons in He as [->|He]; [vm_compute; reflexivity|].
  apply elem_of_cons in He as [->|He]; [vm_compute; reflexivity|].
  by apply elem_of_nil in He.
Defined.

Section QueryBest.

Implicit Types (x : Type_) (e : Z * Type_) (b : best).

Lemma consider_keeps_ge x b e n : best_ge b n -> best_ge (consider x b e) n.
Proof.
  intros (c & p & q & -> & Hn). unfold consider.
  destruct (matches x e.2); [|by exists c, p, q].
  destruct (Z.ltb_spec q e.1); [exists x, e.2, e.1; split; [done|lia]|].
  destruct (_ && _); [by exists x, e.2, q | by exists c, p, q].
Qed.

Lemma consider_match_ge x b e :
  matches x e.2 = true -> best_ge (consider x b e) e.1.
Proof.
  intros Hm. unfold consider. rewrite Hm. destruct b as [[[c p] q]|].
  - destruct (Z.ltb_spec q e.1); [exists x, e.2, e.1; split; [done|lia]|].
    destruct (_ && _); [exists x, e.2, q | exists c, p, q]; (split; [done|lia]).
  - exists x, e.2, e.1. split; [done|lia].
Qed.

Lemma fold_consider_keeps_ge x (l : Range) :
  forall b n, best_ge b n -> best_ge (fold_left (consider x) l b) n.
Proof.
  induction l as [|e r IH]; intros b n Hb; simpl; [exact Hb|].
  by apply IH, consider_keeps_ge.
Qed.

Lemma fold_consider_match_ge x (l : Range) e :
  e ∈ l -> matches x e.2 = true ->
  forall b, best_ge (fold_left (consider x) l b) e.1.
Proof.
  induction l as [|e' r IH]; intros He Hm b; simpl.
  - by apply elem_of_nil in He.
  - apply elem_of_cons in He as [<-|He].
    + by apply fold_consider_keeps_ge, consider_match_ge.
    + by apply IH.
Qed.

Lemma query_spec_ge (self : Range) (available : list Type_) x e :
  x ∈ available -> e ∈ self -> matches x e.2 = true ->
  best_ge (query_spec self available) e.1.
Proof.
  intros Hx He Hm. unfold query_spec. generalize (@None (Type_ * Type_ * Z)).
  induction available as [|y r IH]; intros b; simpl.
  - by apply elem_of_nil in Hx.
  - apply elem_of_cons in Hx as [<-|Hx].
    + assert (Hb : best_ge (fold_left (consider x) self b) e.1)
        by (by apply fold_consider_match_ge).
      revert Hb. generalize (fold_left (consider x) self b).
      clear IH. induction r as [|z r IH]; intros b' Hb'; simpl; [exact Hb'|].
      by apply IH, fold_consider_keeps_ge.
    + by apply IH.
Qed.

(** With nothing of a greater quality to come, the quality stays. *)
Lemma fold_consider_same_quality x (l : Range) (q : Z) :
  Forall (fun e => e.1 <= q) l ->
  forall c p, exists c' p',
    fold_left (consider x) l (Some (c, p, q)) = Some (c', p', q).
Proof.
  induction 1 as [|e r He Hr IH]; intros c p; simpl; [by exists c, p|].
  unfold consider at 2. destruct (matches x e.2); [|apply IH].
  destruct (Z.ltb_spec q e.1); [lia|].
  destruct (_ && _); apply IH.
Qed.

Lemma fold_consider_first_match x (l : Range) :
  quality_descending l ->
  match List.find (fun e => matches x e.2) l with
  | None => fold_left (consider x) l None = None
  | Some e => exists c p, fold_left (consider x) l None = Some (c, p, e.1)
  end.
Proof.
  induction l as [|e r IH]; intros Hl; simpl; [reflexivity|].
  apply quality_descending_cons in Hl as [Hr Hle].
  destruct (matches x e.2) eqn:Hm.
  - replace (consider x None e) with (Some (x, e.2, e.1))
      by (unfold consider; by rewrite Hm).
    by apply fold_consider_same_quality.
  - replace (consider x None e) with (@None (Type_ * Type_ * Z))
      by (unfold consider; by rewrite Hm).
    exact (IH Hr).
Qed.

End QueryBest.

(** X7: on a range in descending quality order whose qualities are
    positive, [query] returns a triple as soon as some candidate matches some
    entry, and its quality is at least that of any entry matched by any
    candidate: the best quality on offer. *)
Theorem query_returns_best_quality (self : Range) (available : list Type_)
    (x : Type_) (e : Z * Type_) :
  quality_descending self -> Forall (fun e => 0 < e.1) self ->
  x ∈ available -> e ∈ self -> matches x e.2 = true ->
  exists c p q, query self available = Ok (Some (c, Some p, q)) /\ e.1 <= q.
Proof.
  intros Hs Hpos Hx He Hm. rewrite (query_refines_spec self available Hs Hpos).
  destruct (query_spec_ge self available x e Hx He Hm) as (c & p & q & -> & Hq).
  by exists c, p, q.
Qed.

(** text/plain is offered at 50 by [text/*] in [text/html, text/*;q=0.5]. *)
Lemma query_returns_best_quality_witness :
  exists c p q,
    query [(100, mkType (U "text") (U "html") ∅); (50, mkType (U "text") (U "*") ∅)]
          [mkType (U "image") (U "png") ∅; mkType (U "text") (U "plain") ∅]
      = Ok (Some (c, Some p, q))
    /\ 50 <= q.
Proof.
  apply (query_returns_best_quality _ _ (mkType (U "text") (U "plain") ∅)
           (50, mkType (U "text") (U "*") ∅)).
  - apply Sorted_quality_descending. repeat constructor. unfold ge_quality. simpl. lia.
  - repeat constructor.
  - set_solver.
  - set_solver.
  - vm_compute. reflexivity.
Defined.

(** X8: on a range in descending quality order whose qualities are
    positive, [quality] gives the quality of the first entry that matches
    the type, and [None] when no entry matches. *)
Theorem quality_is_first_match (self : Range) (mimetype : Type_) :
  quality_descending self -> Forall (fun e => 0 < e.1) self ->
  Range_quality self mimetype =
    Ok ((fun e : Z * Type_ => e.1)
          <$> List.find (fun e => matches mimetype e.2) self).
Proof.
  intros Hs Hpos. unfold Range_quality.
  rewrite (query_refines_spec self [mimetype] Hs Hpos). unfold query_spec. simpl.
  pose proof (fold_consider_first_match mimetype self Hs) as H.
  destruct (List.find _ self) as [e|]; simpl.
  - destruct H as (c & p & ->). reflexivity.
  - rewrite H. reflexivity.
Qed.

(** The quality of text/plain in [text/html, text/*;q=0.5] is 50. *)
Lemma quality_is_first_match_witness :
  Range_quality [(100, mkType (U "text") (U "html") ∅);
                 (50, mkType (U "text") (U "*") ∅)]
                (mkType (U "text") (U "plain") ∅) = Ok (Some 50).
Proof.
  refine (eq_trans (quality_is_first_match _ _ _ _) _).
  - apply Sorted_quality_descending. repeat constructor. unfold ge_quality. simpl. lia.
  - repeat constructor.
  - vm_compute. reflexivity.
Defined.

Lemma query_loop_any_range (available : list Type_) (x : Type_) (s : qstate) :
  s = mkQ None None 0 \/ (exists c, s = mkQ (Some c) (Some any_type) 100) ->
  query_loop any_range (available ++ [x]) s
    = Ok (mkQ (Some x) (Some any_type) 100).
Proof.
  assert (Hstep : forall y s,
    s = mkQ None None 0 \/ (exists c, s = mkQ (Some c) (Some any_type) 100) ->
    query_entries y any_range s = Ok (mkQ (Some y) (Some any_type) 100)).
  { intros y s' Hs'. unfold any_range. simpl.
    destruct (any_type_greatest y) as [Hy _]. rewrite Hy. simpl.
    destruct Hs' as [->|[c ->]]; simpl; [reflexivity|].
    by rewrite (contains_refl any_type). }
  assert (Hcons : forall y l s,
    query_loop any_range (y :: l) s
      = query_entries y any_range s ≫= query_loop any_range l)
    by reflexivity.
  revert s. induction available as [|y r IH]; intros s Hs.
  - change ([] ++ [x]) with [x]. by rewrite Hcons, (Hstep x s Hs).
  - change ((y :: r) ++ [x]) with (y :: (r ++ [x])).
    rewrite Hcons, (Hstep y s Hs). apply IH. right. by eexists.
Qed.

(** X9: against [any_range] every candidate matches at quality 100 and
    each one replaces the one before: [query] returns the last candidate
    given, and [quality] is 100 for every type. *)
Theorem any_range_takes_last_candidate :
  (forall (available : list Type_) (x : Type_),
      query any_range (available ++ [x]) = Ok (Some (x, Some any_type, 100)))
  /\ (forall t : Type_, Range_quality any_range t = Ok (Some 100)).
Proof.
  assert (H : forall (available : list Type_) (x : Type_),
      query any_range (available ++ [x]) = Ok (Some (x, Some any_type, 100))).
  { intros available x. unfold query.
    by rewrite (query_loop_any_range available x _ (or_introl eq_refl)). }
  split; [exact H|]. intros t. unfold Range_quality.
  change [t] with ([] ++ [t]). by rewrite (H [] t).
Qed.

(** ** More on the range parser *)

Section RangeParser.

Lemma split_all_length (s : bytes) : length (split_all "/" s) = S (slashes s).
Proof.
  unfold slashes, bytes. induction s as [|c r IH]; [reflexivity|].
  cbn [split_all]. rewrite filter_cons.
  destruct (decide (c = "/"%char)) as [->|Hne].
  - cbn [length]. by rewrite IH.
  - destruct (split_all "/" r); [discriminate | exact IH].
Qed.

Lemma split_loop_length (parts : list token) :
  forall mtype quality params,
    length (split_loop parts mtype quality params)
      = S (length (List.filter type_token parts)).
Proof.
  induction parts as [|x parts IH]; intros mtype quality params; simpl;
    [reflexivity|].
  fold (type_token x). destruct (type_token x); simpl.
  - by rewrite IH.
  - destruct (bool_decide _); apply IH.
Qed.

Lemma split_loop_head (parts : list token) :
  forall mtype quality params,
    exists q ps rest,
      split_loop parts mtype quality params = (split_all "/" mtype, q, ps) :: rest.
Proof.
  induction parts as [|x parts IH]; intros mtype quality params; simpl.
  - by eexists _, _, _.
  - destruct (_ && _); [by eexists _, _, _|].
    destruct (bool_decide _); apply IH.
Qed.

Lemma split_loop_type_token (parts : list token) (t : token) :
  t ∈ parts -> type_token t = true ->
  forall mtype quality params,
    exists q ps, (split_all "/" t.1, q, ps) ∈ split_loop parts mtype quality params.
Proof.
  induction parts as [|x parts IH]; intros Ht Htt mtype quality params.
  - by apply elem_of_nil in Ht.
  - simpl. fold (type_token x). apply elem_of_cons in Ht as [<-|Ht].
    + rewrite Htt.
      destruct (split_loop_head parts t.1 None []) as (q & ps & rest & ->).
      exists q, ps. right. by left.
    + destruct (type_token x).
      * destruct (IH Ht Htt x.1 None []) as (q & ps & Hin).
        exists q, ps. by right.
      * destruct (bool_decide _); by apply IH.
Qed.

Lemma Sorted_insert_desc_head (x : Z * Type_) (l : list (Z * Type_)) :
  HdRel ge_quality x l -> insert_desc x l = x :: l.
Proof.
  intros H. destruct l as [|y l]; simpl; [reflexivity|].
  inversion_clear H. unfold ge_quality in *.
  destruct (Z.ltb_spec x.1 y.1); [lia | reflexivity].
Qed.

Lemma sort_desc_sorted_id (l : list (Z * Type_)) :
  Sorted ge_quality l -> sort_desc l = l.
Proof.
  induction 1 as [|x l Hl IH Hhd]; simpl; [reflexivity|].
  rewrite IH. by apply Sorted_insert_desc_head.
Qed.

Lemma quality_descending_Sorted (l : list (Z * Type_)) :
  quality_descending l -> Sorted ge_quality l.
Proof.
  induction l as [|x l IH]; intros H; [constructor|].
  destruct (quality_descending_cons x l H) as [Hl Hall].
  constructor; [by apply IH|].
  destruct l as [|y l]; constructor. by apply Forall_cons in Hall as [? _].
Qed.

Section WithTools.

Context {tools : Tools}.

Lemma entries_of_pairs (groups : list group) (l : list (Z * Type_)) :
  entries_of groups = Ok l ->
  Forall (fun g : group => length g.1.1 = 2%nat) groups.
Proof.
  revert l. induction groups as [|[[tpair quality] parameters] groups IH];
    intros l; simpl; [constructor|].
  destruct (unpack2 _) as [[ct st]|] eqn:Hu; simpl; [|discriminate].
  destruct (percent_of quality); simpl; [|discriminate].
  destruct (decode_parameters _); simpl; [|discriminate].
  destruct (entries_of groups) as [l'|]; simpl; [|discriminate].
  intros _. constructor; [|by eapply IH].
  simpl. destruct tpair as [|u [|v [|w z]]]; simpl in Hu; try discriminate.
  reflexivity.
Qed.

Lemma Range_from_tokens_count (x : token) (parts : list token) (r : Range) :
  Range_from_tokens (x :: parts) = Ok r ->
  length r = S (length (List.filter type_token parts)).
Proof.
  unfold Range_from_tokens.
  destruct (parse_entries (x :: parts)) as [l|] eqn:Hl; simpl; [|discriminate].
  intros [= <-].
  rewrite (Permutation_length (sort_desc_perm l)).
  destruct (parse_entries_quality _ _ Hl) as (groups & Hg & H2).
  simpl in Hg. injection Hg as <-.
  rewrite <- (Forall2_length _ _ _ H2). apply split_loop_length.
Qed.

Lemma Range_from_tokens_first_slashes (x : token) (parts : list token) :
  slashes x.1 <> 1%nat -> Range_from_tokens (x :: parts) = Raise ValueError.
Proof.
  intros Hs. unfold Range_from_tokens, parse_entries. simpl.
  destruct (split_loop_head parts x.1 None []) as (q & ps & rest & ->). simpl.
  pose proof (split_all_length x.1) as Hlen.
  destruct (split_all "/" x.1) as [|a [|b [|c r]]]; simpl in *; try reflexivity.
  lia.
Qed.

Lemma Range_from_tokens_slashes (x : token) (parts : list token) (t : token) :
  t ∈ parts -> type_token t = true -> slashes t.1 <> 1%nat ->
  raises (Range_from_tokens (x :: parts)).
Proof.
  intros Ht Htt Hs. unfold Range_from_tokens, parse_entries. simpl.
  destruct (entries_of (split_loop parts x.1 None [])) as [l|e] eqn:He; simpl;
    [|by exists e].
  exfalso. apply entries_of_pairs in He. rewrite Forall_forall in He.
  destruct (split_loop_type_token parts t Ht Htt x.1 None []) as (q & ps & Hin).
  specialize (He _ Hin). simpl in He. rewrite split_all_length in He. lia.
Qed.

Lemma Range_from_tokens_keeps_descending (parts : list token) (l : list (Z * Type_)) :
  parse_entries parts = Ok l -> quality_descending l ->
  Range_from_tokens parts = Ok l.
Proof.
  intros Hl Hd. unfold Range_from_tokens. rewrite Hl. simpl.
  by rewrite (sort_desc_sorted_id l (quality_descending_Sorted l Hd)).
Qed.

Lemma Range_from_tokens_without_q (parts : list token) :
  Forall (fun t => t.1 <> B "q") parts ->
  Range_from_tokens parts = parse_entries parts.
Proof.
  intros Hq. destruct (parse_entries parts) as [l|e] eqn:Hl.
  - apply Range_from_tokens_keeps_descending; [exact Hl|].
    pose proof (parse_entries_default parts l Hq Hl) as H100.
    intros i a b Ha Hb. rewrite Forall_forall in H100.
    rewrite (H100 a), (H100 b); [lia| |]; eapply list_elem_of_lookup_2; eauto.
  - unfold Range_from_tokens. by rewrite Hl.
Qed.

End WithTools.

End RangeParser.

(** X10: a range that is read has one entry for each type of the series:
    one for the first token and one for every later token that has no value
    and contains a [/]. *)
Theorem range_has_one_entry_per_type (tools : Tools) (x : token)
    (parts : list token) (r : Range) :
  Range_from_tokens (x :: parts) = Ok r ->
  length r = S (length (List.filter type_token parts)).
Proof. apply Range_from_tokens_count. Qed.

(** The tokens of [text/html;q=0.9, text/plain] give two entries. *)
Lemma range_has_one_entry_per_type_witness :
  length [(100, mkType (U "text") (U "plain") ∅); (90, mkType (U "text") (U "html") ∅)]
    = S (length (List.filter type_token [(B "q", Some (B "0.9")); (B "text/plain", None)])).
Proof.
  apply (range_has_one_entry_per_type SpecTools.tools (B "text/html", None)).
  vm_compute. reflexivity.
Defined.

(** X11: how reading a range fails: without any token [Range.split] ends
    in [RuntimeError]; a first token that has not exactly one [/] gives
    [ValueError] (so does [*], and so does a/b/c, which [Type.from_bytes]
    accepts); a later type token with more than one [/] makes the parse
    fail; and [Range.from_string] raises [UnicodeEncodeError] on a string with
    a character that cannot be encoded. *)
Theorem range_parser_failures (tools : Tools) :
  Range_from_tokens [] = Raise RuntimeError
  /\ (forall (x : token) (parts : list token),
        slashes x.1 <> 1%nat -> Range_from_tokens (x :: parts) = Raise ValueError)
  /\ (forall (x : token) (parts : list token) (t : token),
        t ∈ parts -> type_token t = true -> slashes t.1 <> 1%nat ->
        raises (Range_from_tokens (x :: parts)))
  /\ (forall s : pystr,
        forallb ascii_encodable s = false ->
        Range_from_string s = Raise UnicodeEncodeError).
Proof.
  split; [reflexivity|]. split; [apply Range_from_tokens_first_slashes|].
  split; [apply Range_from_tokens_slashes|].
  intros s H. unfold Range_from_string. by rewrite (encode_ascii_refuses s H).
Qed.

(** The media range [*] alone. *)
Lemma range_parser_failures_witness :
  Range_from_tokens (tools := SpecTools.tools) [(B "*", None)] = Raise ValueError.
Proof.
  apply (proj1 (proj2 (range_parser_failures SpecTools.tools))). vm_compute. lia.
Defined.

(** X12: sorting never reorders a series given in descending quality
    order: the range is then the list of entries in the order read; in
    particular a series without any [q] parameter keeps its order. *)
Theorem range_keeps_descending_order (tools : Tools) (parts : list token) :
  (forall l : list (Z * Type_),
      parse_entries parts = Ok l -> quality_descending l ->
      Range_from_tokens parts = Ok l)
  /\ (Forall (fun t => t.1 <> B "q") parts ->
      Range_from_tokens parts = parse_entries parts).
Proof.
  split.
  - intros l. apply Range_from_tokens_keeps_descending.
  - apply Range_from_tokens_without_q.
Qed.

(** [text/html, application/xml] is read in that order. *)
Lemma range_keeps_descending_order_witness :
  Range_from_tokens (tools := SpecTools.tools)
      [(B "text/html", None); (B "application/xml", None)]
    = Ok [(100, mkType (U "text") (U "html") ∅);
          (100, mkType (U "application") (U "xml") ∅)].
Proof.
  refine (eq_trans (proj2 (range_keeps_descending_order SpecTools.tools _) _) _).
  - repeat constructor; discriminate.
  - vm_compute. reflexivity.
Defined.

(** ** More on the type parser *)

Section TypeFields.

Lemma decode_code_points (b : bytes) (n : N) :
  n ∈ decode_ascii_surrogateescape b ->
  exists c, c ∈ b
    /\ ((N_of_ascii c < 128 /\ n = N_of_ascii c)
        \/ (128 <= N_of_ascii c /\ n = 56320 + N_of_ascii c))%N.
Proof.
  unfold decode_ascii_surrogateescape. rewrite list_elem_of_In, in_map_iff.
  intros (c & Hn & Hc). exists c. split; [by apply list_elem_of_In|].
  destruct (N.ltb_spec (N_of_ascii c) 128); [left | right]; by split.
Qed.

Lemma decode_without (b : bytes) (n : N) :
  (n < 128)%N -> Forall (fun c => c <> ascii_of_N n) b ->
  n ∉ decode_ascii_surrogateescape b.
Proof.
  intros Hn Hb Hin. destruct (decode_code_points b n Hin) as (c & Hc & H).
  rewrite Forall_forall in Hb. apply (Hb c Hc).
  destruct H as [[_ ->]|[? ->]]; [by rewrite ascii_N_embedding | lia].
Qed.

Lemma is_space_code_decode (c : ascii) (n : N) :
  is_space c = false ->
  ((N_of_ascii c < 128 /\ n = N_of_ascii c)
   \/ (128 <= N_of_ascii c /\ n = 56320 + N_of_ascii c))%N ->
  ~ is_space_code n.
Proof.
  unfold is_space, is_space_code. intros Hs H Hn.
  destruct H as [[_ ->]|[? ->]]; [|lia].
  apply orb_false_iff in Hs as [Hr He]. apply N.eqb_neq in He.
  apply andb_false_iff in Hr. rewrite !N.leb_gt in Hr. lia.
Qed.

Lemma strip_head (y : bytes) (c : ascii) :
  head (strip y) = Some c -> is_space c = false.
Proof.
  unfold strip. pose proof (lstrip_head y) as Hh.
  destruct (lstrip y) as [|d z]; [discriminate|].
  rewrite (rstrip_cons d z Hh). by intros [= <-].
Qed.

Lemma last_rev_head {A} (l : list A) : last (rev l) = head l.
Proof. destruct l as [|a l]; [reflexivity|]. simpl. apply last_snoc. Qed.

Lemma strip_last (y : bytes) (c : ascii) :
  last (strip y) = Some c -> is_space c = false.
Proof.
  unfold strip, rstrip. rewrite last_rev_head. intros H.
  pose proof (lstrip_head (rev (lstrip y))) as Hh.
  destruct (lstrip (rev (lstrip y))) as [|d z]; [discriminate|].
  by injection H as <-.
Qed.

Lemma decode_trimmed (y : bytes) : trimmed (decode_ascii_surrogateescape (strip y)).
Proof.
  intros n Hn.
  assert (Hc : exists c, (head (strip y) = Some c \/ last (strip y) = Some c)
      /\ ((N_of_ascii c < 128 /\ n = N_of_ascii c)
          \/ (128 <= N_of_ascii c /\ n = 56320 + N_of_ascii c))%N).
  { unfold decode_ascii_surrogateescape in Hn.
    set (f := fun c : ascii => _) in Hn.
    assert (Hlast : forall l : bytes, last (map f l) = f <$> last l).
    { induction l as [|a [|b l] IH]; try reflexivity. exact IH. }
    destruct Hn as [Hn|Hn].
    - destruct (strip y) as [|c z]; [discriminate|]. injection Hn as <-.
      exists c. split; [by left|]. unfold f.
      destruct (N.ltb_spec (N_of_ascii c) 128); [left | right]; by split.
    - rewrite Hlast in Hn. destruct (last (strip y)) as [c|]; [|discriminate].
      injection Hn as <-. exists c. split; [by right|]. unfold f.
      destruct (N.ltb_spec (N_of_ascii c) 128); [left | right]; by split. }
  destruct Hc as (c & [Hh|Hl] & Hcn).
  - exact (is_space_code_decode c n (strip_head y c Hh) Hcn).
  - exact (is_space_code_decode c n (strip_last y c Hl) Hcn).
Qed.

Lemma utf8_char_surrogate (c : N) :
  (55296 <= c <= 57343)%N -> utf8_char c = Raise UnicodeEncodeError.
Proof.
  intros H. unfold utf8_char.
  destruct (N.ltb_spec c 128); [lia|]. destruct (N.ltb_spec c 2048); [lia|].
  destruct (N.leb_spec 55296 c); [|lia]. destruct (N.leb_spec c 57343); [|lia].
  reflexivity.
Qed.

Lemma utf8_char_cases (c : N) :
  utf8_char c = Raise UnicodeEncodeError \/ exists b, utf8_char c = Ok b.
Proof.
  unfold utf8_char. destruct (c <? 128)%N; [right; by eexists|].
  destruct (c <? 2048)%N; [right; by eexists|].
  destruct (_ && _); [by left|].
  destruct (c <? 65536)%N; right; by eexists.
Qed.

Lemma encode_utf8_surrogate (s : pystr) (c : N) :
  c ∈ s -> (55296 <= c <= 57343)%N -> encode_utf8 s = Raise UnicodeEncodeError.
Proof.
  intros Hin Hc. induction s as [|d r IH]; [by apply elem_of_nil in Hin|].
  simpl. apply elem_of_cons in Hin as [<-|Hin].
  - by rewrite utf8_char_surrogate.
  - destruct (utf8_char_cases d) as [->|[b ->]]; [reflexivity|].
    simpl. by rewrite (IH Hin).
Qed.

Section WithTools.

Context {tools : Tools}.
Variable iter_frozenset : gset param -> list param.

(** What [from_bytes] computes when the base segment has a [/]. *)
Lemma from_bytes_eq (string : bytes) (parameters : list param) :
  byte_in "/" (base_segment string) = true ->
  from_bytes string parameters =
    (series ← split_parameter_series (series_segment string);
     decoded ← decode_parameters series;
     Ok (mkType (decode_ascii_surrogateescape (parsed_cotype string))
                (decode_ascii_surrogateescape (parsed_subtype string))
                (list_to_set (decoded ++ parameters)))).
Proof.
  intros H. unfold from_bytes, parsed_cotype, parsed_subtype.
  rewrite hd_split_max1.
  destruct (split_max1_with _ _ H) as (a & b & Hab & Hbase & Ha).
  rewrite Hab, Hbase, (split1_app "/" a b Ha). reflexivity.
Qed.

Lemma from_bytes_slash (string : bytes) (parameters : list param) (t : Type_) :
  from_bytes string parameters = Ok t -> byte_in "/" (base_segment string) = true.
Proof.
  intros H. destruct (byte_in "/" (base_segment string)) eqn:Hs; [reflexivity|].
  by rewrite (from_bytes_without_slash _ _ Hs) in H.
Qed.

Lemma from_bytes_fields (string : bytes) (parameters : list param) (t : Type_) :
  from_bytes string parameters = Ok t ->
  cotype t = decode_ascii_surrogateescape (parsed_cotype string)
  /\ subtype t = decode_ascii_surrogateescape (parsed_subtype string).
Proof.
  intros H. pose proof (from_bytes_slash _ _ _ H) as Hs.
  rewrite (from_bytes_eq _ _ Hs) in H.
  destruct (split_parameter_series _); simpl in H; [|discriminate].
  destruct (decode_parameters _); simpl in H; [|discriminate].
  by injection H as <-.
Qed.

Lemma parsed_parts (string : bytes) :
  Forall (fun c => c <> "/"%char) (parsed_cotype string)
  /\ Forall (fun c => c <> ";"%char) (parsed_cotype string)
  /\ Forall (fun c => c <> ";"%char) (parsed_subtype string).
Proof.
  unfold parsed_cotype, parsed_subtype.
  destruct (base_segment_spec string) as [_ Hsemi].
  pose proof (split1_spec "/" (base_segment string)) as Hs.
  destruct (split1 "/" (base_segment string)) as [a [b|]]; simpl;
    destruct Hs as [Hbase Ha]; rewrite Hbase in Hsemi.
  - apply Forall_app in Hsemi as [Hsa Hsb]. apply Forall_cons in Hsb as [_ Hsb].
    repeat split; by apply strip_Forall.
  - repeat split; by apply strip_Forall.
Qed.

Lemma from_bytes_override (string : bytes) (keywords : list param) (t0 : Type_) :
  from_bytes string [] = Ok t0 ->
  from_bytes string keywords =
    Ok (mkType (cotype t0) (subtype t0) (parameters t0 ∪ list_to_set keywords)).
Proof.
  intros H. pose proof (from_bytes_slash _ _ _ H) as Hs.
  rewrite (from_bytes_eq _ _ Hs) in H. rewrite (from_bytes_eq _ _ Hs).
  destruct (split_parameter_series _); simpl in *; [|discriminate].
  destruct (decode_parameters _); simpl in *; [|discriminate].
  injection H as <-. simpl. by rewrite app_nil_r, list_to_set_app_L.
Qed.

Lemma to_bytes_surrogate (t : Type_) (c : N) :
  c ∈ cotype t ++ subtype t -> (55296 <= c <= 57343)%N ->
  raises (to_bytes iter_frozenset t).
Proof.
  intros Hin Hc. unfold to_bytes.
  destruct (if truthy _ then _ else _) as [[optjoin optstr]|e]; simpl;
    [|by exists e].
  apply elem_of_app in Hin as [Hin|Hin].
  - rewrite (encode_utf8_surrogate _ c Hin Hc). by eexists.
  - destruct (encode_utf8 (cotype t)); simpl; [|by eexists].
    rewrite (encode_utf8_surrogate _ c Hin Hc). by eexists.
Qed.

End WithTools.

End TypeFields.

(** X13: in a type that [from_bytes] returns, the content type has no [/]
    and no [;], the subtype has no [;] (it keeps every [/] after the first),
    and neither starts or ends with whitespace. *)
Theorem parsed_type_fields (tools : Tools) (string : bytes)
    (parameters : list param) (t : Type_) :
  from_bytes string parameters = Ok t ->
  (47%N ∉ cotype t) /\ (59%N ∉ cotype t) /\ (59%N ∉ subtype t)
  /\ trimmed (cotype t) /\ trimmed (subtype t).
Proof.
  intros H. destruct (from_bytes_fields _ _ _ H) as [-> ->].
  destruct (parsed_parts string) as (Hsl & Hsc & Hss).
  split; [by apply decode_without|]. split; [by apply decode_without|].
  split; [by apply decode_without|].
  unfold parsed_cotype, parsed_subtype. split; apply decode_trimmed.
Qed.

(** [ a / b/c ;x] is read as the type [a] with the subtype [b/c]. *)
Lemma parsed_type_fields_witness :
  let t := mkType (U "a") (U "b/c") {[ (U "x", None) ]} in
  (47%N ∉ cotype t) /\ (59%N ∉ cotype t) /\ (59%N ∉ subtype t)
  /\ trimmed (cotype t) /\ trimmed (subtype t).
Proof.
  apply (parsed_type_fields SpecTools.tools (B " a / b/c ;x") []).
  vm_compute. reflexivity.
Defined.

(** X14: the parameters given by keyword are added to the ones read from
    the string and replace none of them: the call with keywords returns the
    type of the call without, with the union of both parameter sets. *)
Theorem keyword_parameters_are_added (tools : Tools) (string : bytes)
    (keywords : list param) (t0 : Type_) :
  from_bytes string [] = Ok t0 ->
  from_bytes string keywords =
    Ok (mkType (cotype t0) (subtype t0) (parameters t0 ∪ list_to_set keywords)).
Proof. apply from_bytes_override. Qed.

(** [text/html;level=1] with the keyword [level=2] has both. *)
Lemma keyword_parameters_are_added_witness :
  from_bytes (tools := SpecTools.tools) (B "text/html;level=1") [(U "level", Some (U "2"))]
  = Ok (mkType (U "text") (U "html")
          ({[ (U "level", Some (U "1")) ]} ∪ list_to_set [(U "level", Some (U "2"))])).
Proof.
  assert (H : from_bytes (tools := SpecTools.tools) (B "text/html;level=1") []
              = Ok (mkType (U "text") (U "html") {[ (U "level", Some (U "1")) ]}))
    by (vm_compute; reflexivity).
  exact (keyword_parameters_are_added SpecTools.tools _
           [(U "level", Some (U "2"))] _ H).
Defined.

(** X15: a type read by [from_bytes] from bytes that are not ASCII in the
    content type or subtype cannot be written: [__bytes__], and with it
    [__str__], raises, the escaped bytes being refused by the UTF-8 encoder. *)
Theorem non_ascii_type_cannot_be_written (tools : Tools)
    (iter_frozenset : gset param -> list param) (string : bytes)
    (parameters : list param) (t : Type_) (c : N) :
  from_bytes string parameters = Ok t ->
  c ∈ cotype t ++ subtype t -> (128 <= c)%N ->
  raises (to_bytes iter_frozenset t) /\ raises (to_string iter_frozenset t).
Proof.
  intros H Hin Hc.
  assert (Hsur : (55296 <= c <= 57343)%N).
  { destruct (from_bytes_fields _ _ _ H) as [Hct Hst]. rewrite Hct, Hst in Hin.
    apply elem_of_app in Hin as [Hin|Hin];
      destruct (decode_code_points _ c Hin) as (d & _ & [[? ->]|[? ->]]);
      pose proof (N_ascii_bounded d); lia. }
  destruct (to_bytes_surrogate iter_frozenset t c Hin Hsur) as [e He].
  split; [by exists e|]. unfold to_string. rewrite He. by exists e.
Qed.

(** The byte 255 as content type. *)
Lemma non_ascii_type_cannot_be_written_witness :
  raises (to_bytes (tools := SpecTools.tools) elements (mkType [56575%N] (U "x") ∅))
  /\ raises (to_string (tools := SpecTools.tools) elements (mkType [56575%N] (U "x") ∅)).
Proof.
  apply (non_ascii_type_cannot_be_written SpecTools.tools elements
           [ascii_of_N 255; "/"%char; "x"%char] [] _ 56575%N).
  - vm_compute. reflexivity.
  - left.
  - vm_compute. discriminate.
Defined.

(** ** [file_type] *)

Section FileTypeProofs.

Lemma rfind_from_last (c : N) (a ext : pystr) :
  c ∉ ext ->
  forall i found, rfind_from c (a ++ c :: ext) i found = i + Z.of_nat (length a).
Proof.
  intros Hext. induction a as [|d a IH]; intros i found; simpl.
  - rewrite N.eqb_refl.
    rewrite (proj1 (rfind_from_spec c ext (i + 1) i) Hext). lia.
  - rewrite IH. lia.
Qed.

Lemma rsplit1_last (c : N) (a ext : pystr) :
  c ∉ ext -> rsplit1 c (a ++ c :: ext) = [a; ext].
Proof.
  intros Hext. unfold rsplit1, rfind, slice_to.
  rewrite (rfind_from_last c a ext Hext), Z.add_0_l.
  destruct (Z.eqb_spec (Z.of_nat (length a)) (-1)) as [E|_]; [lia|].
  rewrite Nat2Z.id, take_app_length. f_equal. f_equal.
  rewrite (cons_middle c a ext), app_assoc.
  apply drop_app_length'. rewrite length_app. reflexivity.
Qed.

Lemma rsplit1_absent (c : N) (s : pystr) : c ∉ s -> rsplit1 c s = [s].
Proof. intros H. unfold rsplit1. by rewrite (rfind_absent c s H). Qed.

Lemma last_occurrence (c : N) (s : pystr) :
  c ∈ s -> exists a ext, s = a ++ c :: ext /\ c ∉ ext.
Proof.
  induction s as [|d r IH]; intros H; [by apply elem_of_nil in H|].
  destruct (decide (c ∈ r)) as [Hr|Hr].
  - destruct (IH Hr) as (a & ext & -> & Hext). by exists (d :: a), ext.
  - apply elem_of_cons in H as [->|H]; [|contradiction]. by exists [], r.
Qed.

Lemma types_data : types_get (U "data") = Some (U "application/octet-stream").
Proof. vm_compute. reflexivity. Qed.

Lemma types_values_ok (ext v : pystr) :
  types_get ext = Some v -> table_value_ok v = true.
Proof.
  intros H. unfold types_get, types in H. apply elem_of_list_to_map_2 in H.
  apply list_elem_of_In, in_rev, in_map_iff in H as (kv & [= _ <-] & Hkv).
  assert (Hall : forallb (fun kv : string * string => table_value_ok (U kv.2))
                   types_table = true) by (vm_compute; reflexivity).
  rewrite forallb_forall in Hall. exact (Hall kv Hkv).
Qed.

Section WithTools.

Context {tools : Tools}.

Lemma file_type_no_dot (filename : pystr) :
  46%N ∉ filename -> file_type filename = LookupFailed IndexError.
Proof.
  intros H. unfold file_type. rewrite (rsplit1_absent _ _ H). reflexivity.
Qed.

Lemma file_type_ext (a ext : pystr) :
  46%N ∉ ext ->
  file_type (a ++ 46%N :: ext) =
    lift (from_string (default (U "application/octet-stream") (types_get ext)) []).
Proof.
  intros H. unfold file_type. rewrite (rsplit1_last _ a ext H).
  change ([a; ext] !! 1%nat) with (Some ext). cbv beta iota.
  destruct (types_get ext); [reflexivity|]. by rewrite types_data.
Qed.

Lemma from_string_octet_stream :
  from_string (U "application/octet-stream") [] =
    (series ← split_parameter_series [];
     decoded ← decode_parameters series;
     Ok (mkType (U "application") (U "octet-stream") (list_to_set decoded))).
Proof.
  unfold from_string.
  assert (He : encode_ascii_surrogateescape (U "application/octet-stream")
               = Ok (B "application/octet-stream")) by (vm_compute; reflexivity).
  rewrite He. unfold mbind at 1, result_bind at 1. cbv beta iota.
  rewrite from_bytes_eq by (vm_compute; reflexivity).
  assert (Hs : series_segment (B "application/octet-stream") = [])
    by (vm_compute; reflexivity).
  assert (Hc : decode_ascii_surrogateescape
                 (parsed_cotype (B "application/octet-stream")) = U "application")
    by (vm_compute; reflexivity).
  assert (Ht : decode_ascii_surrogateescape
                 (parsed_subtype (B "application/octet-stream")) = U "octet-stream")
    by (vm_compute; reflexivity).
  rewrite Hs, Hc, Ht.
  destruct (split_parameter_series []) as [series|]; [|reflexivity].
  unfold mbind at 1 3, result_bind at 1 3. cbv beta iota.
  destruct (decode_parameters series) as [decoded|]; [|reflexivity].
  unfold mbind, result_bind. cbv beta iota. by rewrite app_nil_r.
Qed.

Lemma from_string_table_value (v : pystr) :
  codec_total tools -> table_value_ok v = true ->
  exists t, from_string v [] = Ok t /\ pattern t = false.
Proof.
  intros Htot Hv. unfold table_value_ok in Hv. unfold from_string.
  destruct (encode_ascii_surrogateescape v) as [b|]; [|discriminate]. simpl.
  apply andb_true_iff in Hv as [Hv Hst]. apply andb_true_iff in Hv as [Hsl Hct].
  rewrite (from_bytes_eq _ _ Hsl).
  destruct (Htot (series_segment b)) as (series & decoded & -> & Hd). simpl.
  rewrite Hd. simpl. eexists. split; [reflexivity|].
  unfold pattern. simpl.
  apply negb_true_iff, bool_decide_eq_false in Hct, Hst.
  rewrite !bool_decide_eq_false_2 by congruence. reflexivity.
Qed.

End WithTools.

End FileTypeProofs.

(** X16: a file name without a dot has no extension to look up:
    [parts[1]] fails and [file_type] raises [IndexError] rather than giving
    the default type. *)
Theorem file_type_without_dot (tools : Tools) (filename : pystr) :
  46%N ∉ filename -> file_type filename = LookupFailed IndexError.
Proof. apply file_type_no_dot. Qed.

(** The file name [README]. *)
Lemma file_type_without_dot_witness :
  file_type (tools := SpecTools.tools) (U "README") = LookupFailed IndexError.
Proof.
  apply (file_type_without_dot SpecTools.tools (U "README")).
  vm_compute. intros H. repeat (apply elem_of_cons in H as [H|H]; [discriminate|]).
  by apply elem_of_nil in H.
Defined.

(** X17: [file_type] only looks at what follows the last dot: two file
    names with the same last extension get the same answer, which is the
    type read from the table's string for that extension, or from the one of
    [data] when the table has none. *)
Theorem file_type_by_last_extension (tools : Tools) (a ext : pystr) :
  46%N ∉ ext ->
  file_type (a ++ 46%N :: ext) = file_type (46%N :: ext)
  /\ file_type (a ++ 46%N :: ext) =
       lift (from_string (default (U "application/octet-stream") (types_get ext)) []).
Proof.
  intros H. split; [|by apply file_type_ext].
  by rewrite (file_type_ext a ext H), <- (file_type_ext [] ext H).
Qed.

(** [archive.tar.gz] is looked up as [.gz]. *)
Lemma file_type_by_last_extension_witness :
  file_type (tools := SpecTools.tools) (U "archive.tar.gz")
    = file_type (tools := SpecTools.tools) (U ".gz").
Proof.
  apply (proj1 (file_type_by_last_extension SpecTools.tools (U "archive.tar") (U "gz")
                  ltac:(vm_compute; intros H;
                        repeat (apply elem_of_cons in H as [H|H]; [discriminate|]);
                        by apply elem_of_nil in H))).
Defined.

(** X18: an extension that is not a key of the table, the empty one and
    one in capitals included, gives application/octet-stream, with the
    parameters the codec reads from the empty series. *)
Theorem file_type_unknown_extension (tools : Tools) (a ext : pystr) :
  46%N ∉ ext -> types_get ext = None ->
  file_type (a ++ 46%N :: ext) =
    lift (series ← split_parameter_series [];
          decoded ← decode_parameters series;
          Ok (mkType (U "application") (U "octet-stream") (list_to_set decoded))).
Proof.
  intros H Hnone. rewrite (file_type_ext a ext H), Hnone.
  change (default (U "application/octet-stream") None)
    with (U "application/octet-stream").
  rewrite from_string_octet_stream. reflexivity.
Qed.

(** [INDEX.HTML]: the keys of the table are in lower case. *)
Lemma file_type_unknown_extension_witness :
  file_type (tools := SpecTools.tools) (U "INDEX.HTML")
    = Returned (mkType (U "application") (U "octet-stream") ∅).
Proof.
  refine (eq_trans (file_type_unknown_extension SpecTools.tools (U "INDEX") (U "HTML") _ _) _).
  - vm_compute. intros H.
    repeat (apply elem_of_cons in H as [H|H]; [discriminate|]).
    by apply elem_of_nil in H.
  - vm_compute. reflexivity.
  - vm_compute. reflexivity.
Defined.

(** X19: every string of the table is ASCII, has its [/] and names no
    wildcard: with a codec that reads every series, [file_type] returns, for
    every file name with a dot, a type that is not a pattern. *)
Theorem file_type_returns_concrete_type (tools : Tools) (filename : pystr) :
  codec_total tools -> 46%N ∈ filename ->
  exists t, file_type filename = Returned t /\ pattern t = false.
Proof.
  intros Htot Hdot. destruct (last_occurrence _ _ Hdot) as (a & ext & -> & Hext).
  rewrite (file_type_ext a ext Hext).
  assert (Hv : table_value_ok (default (U "application/octet-stream") (types_get ext))
               = true).
  { destruct (types_get ext) as [v|] eqn:Hl.
    - exact (types_values_ok ext v Hl).
    - exact (types_values_ok (U "data") _ types_data). }
  destruct (from_string_table_value _ Htot Hv) as (t & -> & Hp).
  exists t. split; [reflexivity | exact Hp].
Qed.

(** [index.html] with the codec of the specification. *)
Lemma file_type_returns_concrete_type_witness :
  exists t, file_type (tools := SpecTools.tools) (U "index.html") = Returned t
            /\ pattern t = false.
Proof.
  apply (file_type_returns_concrete_type SpecTools.tools (U "index.html")).
  - intros ser. eexists _, _. split; reflexivity.
  - vm_compute. do 5 right. left.
Defined.
